(** * affine_invariant_features: the sampled detector and the result matcher

    A shallow embedding of
    - [include/affine_invariant_features/result_matcher.hpp]
      (the constructor of [ResultMatcher], [ResultMatcher::match],
      [ResultMatcher::parallelMatch]),
    - [include/affine_invariant_features/affine_invariant_feature.hpp]
      ([AffineInvariantFeature::detectAndCompute], [detectAndComputeImpl]) and
    - [include/affine_invariant_features/feature_parameters.hpp]
      ([createFeatureParameters], [read] and [write] of the parameter sets).

    C++ [float] and [double] values are IEEE 754 binary32 / binary64 numbers,
    represented with the executable specification of [SpecFloat]; vectors are
    lists, indexed with stdpp's lookup and insert; the OpenCV and libm
    routines the code calls are interfaces (type classes), so every theorem
    holds for all of their implementations; a routine of OpenCV can raise
    a [cv::Exception], and what its assertions refuse is a hypothesis where
    a theorem needs it. *)

From Stdlib Require Import ZArith Bool List Lia.
From Stdlib Require Import Floats.SpecFloat.
From Stdlib Require String.
From stdpp Require Import base option list.
Import ListNotations.
Import String.StringSyntax.
Delimit Scope string_scope with string.

#[local] Unset Default Proof Using.
#[local] Open Scope nat_scope.

(* ===================================================================== *)
(** * IEEE 754 numbers *)
(* ===================================================================== *)

Module IEEE.

(** C++ [double]: binary64, 53 bits of precision; C++ [float]: binary32,
    24 bits of precision. Both are [spec_float] values, canonical for their
    format. *)
Abbreviation double := spec_float (only parsing).
Abbreviation float := spec_float (only parsing).

(** [m * 2^e], rounded to nearest even. *)
Definition dbl (m e : Z) : double := binary_normalize 53 1024 m e false.
Definition flt (m e : Z) : float := binary_normalize 24 128 m e false.

Definition dadd : double -> double -> double := SFadd 53 1024.
Definition dsub : double -> double -> double := SFsub 53 1024.
Definition dmul : double -> double -> double := SFmul 53 1024.
Definition ddiv : double -> double -> double := SFdiv 53 1024.
Definition dsqrt : double -> double := SFsqrt 53 1024.

(** [x < y], [x > y], [x == y], [x != y]; every comparison with a NaN is
    false, except [!=] which is true. *)
Definition dlt (x y : double) : bool := SFltb x y.
Definition dgt (x y : double) : bool := SFltb y x.
Definition deq (x y : double) : bool := SFeqb x y.
Definition dne (x y : double) : bool := negb (SFeqb x y).

(** The implicit conversion [float] to [double] is exact; it only changes
    the representation to the 53-bit canonical one. *)
Definition promote (x : float) : double :=
  match x with
  | S754_finite s m e => binary_normalize 53 1024 (cond_Zopp s (Zpos m)) e s
  | _ => x
  end.

(** The conversion [double] to [float] rounds to nearest even. *)
Definition demote (x : double) : float :=
  match x with
  | S754_finite s m e => binary_normalize 24 128 (cond_Zopp s (Zpos m)) e s
  | _ => x
  end.

(** The conversion [int] to [double] is exact. *)
Definition double_of_int (i : Z) : double := dbl i 0.
Definition float_of_int (i : Z) : float := flt i 0.

End IEEE.
Import IEEE.

(* ===================================================================== *)
(** * Outcomes of a call *)
(* ===================================================================== *)

(** A call returns, lets a [cv::Exception] escape, or has no defined
    behaviour ([operator[]] of a [std::vector] out of range). *)
Inductive outcome (A : Type) : Type :=
| Returned (a : A)
| Raised
| Undefined.
Arguments Returned {A} a.
Arguments Raised {A}.
Arguments Undefined {A}.

Definition obind {A B : Type} (o : outcome A) (k : A -> outcome B) : outcome B :=
  match o with
  | Returned a => k a
  | Raised => Raised
  | Undefined => Undefined
  end.

Notation "'do' x <- o ; k" := (obind o (fun x => k))
  (at level 10, x pattern, o at level 100, k at level 200).

(** [v[i]] for a [std::vector] and an [int] index. *)
Definition vec_at {A : Type} (v : list A) (i : Z) : option A :=
  if (i <? 0)%Z then None else v !! Z.to_nat i.

Definition defined {A : Type} (o : option A) : outcome A :=
  match o with
  | Some a => Returned a
  | None => Undefined
  end.

(** A call of a library routine: [None] when it lets a [cv::Exception]
    escape, as a failed [CV_Assert] on its arguments does. *)
Definition checked {A : Type} (o : option A) : outcome A :=
  match o with
  | Some a => Returned a
  | None => Raised
  end.

(** [v.resize(n, x)]: the first [n] elements stay as they are, new elements
    are copies of [x]. *)
Definition vector_resize {A : Type} (v : list A) (n : nat) (x : A) : list A :=
  take n v ++ replicate (n - length v) x.

(* ===================================================================== *)
(** * OpenCV value types *)
(* ===================================================================== *)

Record Point2f := mkPoint2f { pt_x : float; pt_y : float }.

Record KeyPoint := mkKeyPoint {
  pt : Point2f;
  kp_size : float;
  kp_angle : float;
  kp_response : float;
  kp_octave : Z;
  kp_class_id : Z
}.

Record DMatch := mkDMatch {
  queryIdx : Z;
  trainIdx : Z;
  imgIdx : Z;
  distance : float
}.

(** [cv::Mat], two-dimensional: element type tag, number of columns, and
    the rows (each element as its raw value). *)
Record Mat := mkMat {
  mat_type : Z;
  mat_cols : nat;
  mat_data : list (list Z)
}.

Definition mat_rows (m : Mat) : nat := length (mat_data m).

(** [cv::Mat()] *)
Definition Mat_new : Mat := mkMat 0 0 [].

(** [m.empty()]: no element. *)
Definition Mat_empty (m : Mat) : bool :=
  (mat_rows m =? 0) || (mat_cols m =? 0).

(** [cv::Matx<float, m, n>]: [val] holds the entries row by row; entry
    [(i, j)] is [val[i * n + j]]. *)
Record Matx := mkMatx {
  mx_rows : nat;
  mx_cols : nat;
  mx_val : list float
}.

Definition Matx_eye (m n : nat) : Matx :=
  mkMatx m n
    (flat_map (fun i => map (fun j => if i =? j then flt 1 0 else S754_zero false) (seq 0 n))
              (seq 0 m)).

Definition Matx_at (a : Matx) (i j : nat) : option float :=
  mx_val a !! (i * mx_cols a + j).

Definition Matx_set (a : Matx) (i j : nat) (x : float) : Matx :=
  mkMatx (mx_rows a) (mx_cols a) (<[i * mx_cols a + j := x]> (mx_val a)).

(** [cv::Matx33f::eye()] and [cv::Matx32f::eye()]; [cv::Matx32f] is
    [cv::Matx<float, 3, 2>]. *)
Definition Matx33f_eye : Matx := Matx_eye 3 3.
Definition Matx32f_eye : Matx := Matx_eye 3 2.

(** Modelled from the spec: [results.hpp] is not part of the sources read
    here; a Results bundles keypoints, their descriptor matrix and the
    distance-metric tag. *)
Record Results := mkResults {
  keypoints : list KeyPoint;
  descriptors : Mat;
  normType : Z
}.

(* ===================================================================== *)
(** * ResultMatcher *)
(* ===================================================================== *)

(** [cv::findHomography]'s method flag. *)
Inductive Method := LeastSquares | RANSAC | LMEDS | RHO.

(** What the statement
    [transform = cv::findHomography(source_points, reference_points, cv::RANSAC, 5., mask)]
    does: it assigns a 3x3 transform and fills [mask], or a [cv::Exception]
    leaves it with [mask] as declared. *)
Inductive estimate :=
| Fitted (H : Matx) (mask : list Z)
| NoModel.

(** The part of calib3d the matcher calls. *)
Class Calib3d := {
  findHomography : list Point2f -> list Point2f -> Method -> double -> estimate
}.

(** A trained [cv::DescriptorMatcher]: [knnMatch(query, all_matches, k)]. *)
Record DescriptorMatcher := mkDescriptorMatcher {
  knnMatch : Mat -> nat -> list (list DMatch)
}.

Record ResultMatcher := mkResultMatcher {
  reference_ : Results;
  matcher_ : DescriptorMatcher
}.

(** What [match] does that is visible besides its outputs. *)
Inductive Event :=
| EvKnnMatch
| EvFindHomography (npoints : nat)
| EvRosInfo.

(** [0.75] *)
Definition ratio : double := dbl 3 (-2).

(** lines 58-63: the two [continue] conditions of the filter loop;
    [Some m0] when the nearest neighbour [m0] of the row is pushed to
    [unique_matches]. *)
Definition ratio_test (m : list DMatch) : option DMatch :=
  match m with
  | m0 :: m1 :: _ =>
      if dgt (promote (distance m0)) (dmul ratio (promote (distance m1)))
      then None
      else Some m0
  | _ => None
  end.

(** lines 55-65 *)
Fixpoint filter_unique (all_matches : list (list DMatch)) : list DMatch :=
  match all_matches with
  | [] => []
  | m :: rest =>
      match ratio_test m with
      | Some m0 => m0 :: filter_unique rest
      | None => filter_unique rest
      end
  end.

(** lines 74-80 *)
Fixpoint gather_points (source_keypoints reference_keypoints : list KeyPoint)
    (unique_matches : list DMatch) : option (list Point2f * list Point2f) :=
  match unique_matches with
  | [] => Some ([], [])
  | m :: rest =>
      s ← vec_at source_keypoints (queryIdx m);
      r ← vec_at reference_keypoints (trainIdx m);
      '(source_points, reference_points) ← gather_points source_keypoints reference_keypoints rest;
      Some (pt s :: source_points, pt r :: reference_points)
  end.

(** lines 93-99, from index [i] on *)
Fixpoint pack_matches (unique_matches : list DMatch) (mask : list Z) (i : nat)
    : option (list DMatch) :=
  match unique_matches with
  | [] => Some []
  | m :: rest =>
      b ← mask !! i;
      packed ← pack_matches rest mask (S i);
      Some (if (b =? 0)%Z then packed else m :: packed)
  end.

(** [ResultMatcher::match]. The outputs [transform] and [matches] are
    overwritten first (lines 47-48), so the call does not depend on what
    they held. *)
Definition match_ `{Calib3d} (this : ResultMatcher) (source : Results)
    : list Event * outcome (Matx * list DMatch) :=
  let transform := Matx33f_eye in
  let matches : list DMatch := [] in
  let all_matches := knnMatch (matcher_ this) (descriptors source) 2 in
  let unique_matches := filter_unique all_matches in
  if length unique_matches <? 4 then ([EvKnnMatch], Returned (transform, matches))
  else
    match gather_points (keypoints source) (keypoints (reference_ this)) unique_matches with
    | None => ([EvKnnMatch], Undefined)
    | Some (source_points, reference_points) =>
        let mask : list Z := [] in
        let n := length source_points in
        match findHomography source_points reference_points RANSAC (dbl 5 0) with
        | Fitted H mask' =>
            ([EvKnnMatch; EvFindHomography n],
             do packed <- defined (pack_matches unique_matches mask' 0);
             Returned (H, matches ++ packed))
        | NoModel =>
            let transform := Matx33f_eye in
            let mask := vector_resize mask n 0%Z in
            ([EvKnnMatch; EvFindHomography n; EvRosInfo],
             do packed <- defined (pack_matches unique_matches mask 0);
             Returned (transform, matches ++ packed))
        end
    end.

(* ===================================================================== *)
(** * Parallel tasks *)
(* ===================================================================== *)

(** A bound task: it updates the output arrays or fails. *)
Definition Task (S : Type) : Type := S -> outcome S.

(** [cv::parallel_for_(cv::Range(0, ntasks), body)] with the loop body of
    [ParallelLoopBody::operator()] (affine_invariant_feature.hpp, lines
    24-30): the indices are visited in some order [sched], and [tasks[i]] is
    called when it is set. *)
Fixpoint run_tasks {S : Type} (tasks : list (option (Task S))) (sched : list nat) (st : S)
    : outcome S :=
  match sched with
  | [] => Returned st
  | i :: rest =>
      match tasks !! i with
      | None => Undefined
      | Some None => run_tasks tasks rest st
      | Some (Some task) => do st' <- task st; run_tasks tasks rest st'
      end
  end.

(** The orders [cv::parallel_for_] can visit [0 .. ntasks-1] in: every index
    once. *)
Definition schedule (ntasks : nat) (sched : list nat) : Prop :=
  sched ≡ₚ seq 0 ntasks.

(** A task bound to [boost::ref(a[i])] and [boost::ref(b[i])]: it reads and
    writes the [i]-th slot of each array, nothing else. *)
Definition slot_task {A B : Type} (i : nat) (f : A -> outcome (A * B)) : Task (list A * list B) :=
  fun '(a, b) =>
    do x <- defined (a !! i);
    do (x', y') <- f x;
    Returned (<[i := x']> a, <[i := y']> b).

(** The tasks bound for a vector of optional workers. *)
Definition slot_tasks {A B : Type} (fs : list (option (A -> outcome (A * B))))
    : list (option (Task (list A * list B))) :=
  imap (fun i f => slot_task i <$> f) fs.

(** Modelled from the spec: [parallel_tasks.hpp] is not part of the sources
    read here; [ParallelTasks tasks(ntasks)] is a vector of [ntasks] unset
    tasks that [cv::parallel_for_] runs index by index, skipping the unset
    ones, as [ParallelLoopBody] above does. *)
Definition ParallelTasks (S : Type) (ntasks : nat) : list (option (Task S)) :=
  replicate ntasks None.

(** lines 113-118 of result_matcher.hpp, from index [i] on *)
Fixpoint populate_tasks `{Calib3d} (matchers : list (option ResultMatcher)) (source : Results)
    (i : nat) (tasks : list (option (Task (list Matx * list (list DMatch)))))
    : list (option (Task (list Matx * list (list DMatch)))) :=
  match matchers with
  | [] => tasks
  | m :: rest =>
      let tasks :=
        match m with
        | Some this => <[i := Some (slot_task i (fun _ => snd (match_ this source)))]> tasks
        | None => tasks
        end in
      populate_tasks rest source (S i) tasks
  end.

(** The worker bound for matcher [m]: [match] does not read its outputs. *)
Definition match_worker `{Calib3d} (source : Results) (m : ResultMatcher)
    : Matx -> outcome (Matx * list DMatch) :=
  fun _ => (match_ m source).2.

(** [ResultMatcher::parallelMatch]; [transforms] and [matches_array] are the
    caller's vectors as they are on entry. The number of matchers is taken
    to fit an [int]; [nstripes] only changes how [cv::parallel_for_] cuts
    the range, which is part of [sched]. *)
Definition parallelMatch `{Calib3d} (sched : list nat)
    (matchers : list (option ResultMatcher)) (source : Results)
    (transforms : list Matx) (matches_array : list (list DMatch))
    : outcome (list Matx * list (list DMatch)) :=
  let ntasks := length matchers in
  let transforms := vector_resize transforms ntasks Matx33f_eye in
  let matches_array := vector_resize matches_array ntasks [] in
  let tasks := populate_tasks matchers source 0 (ParallelTasks _ ntasks) in
  run_tasks tasks sched (transforms, matches_array).

(* ===================================================================== *)
(** * AffineInvariantFeature *)
(* ===================================================================== *)

Record Size := mkSize { width : nat; height : nat }.
Record Rect := mkRect { rect_x : Z; rect_y : Z; rect_width : nat; rect_height : nat }.

Inductive Interpolation := INTER_NEAREST | INTER_LINEAR.
Inductive Border := BORDER_CONSTANT | BORDER_REPLICATE.

(** [std::pow] *)
Class Libm := {
  pow : double -> double -> double
}.

(** The part of imgproc and core the detector calls. Every routine checks
    its arguments and can raise: [None]. [getRotationMatrix2D] gives the
    matrix it returns with the shape it has. *)
Class ImgProc := {
  getRotationMatrix2D : Point2f -> double -> double -> option Matx;
  transform_points : list Point2f -> Matx -> option (list Point2f);
  boundingRect : list Point2f -> option Rect;
  warpAffine : Mat -> Matx -> Size -> Interpolation -> Border -> option Mat;
  GaussianBlur : Mat -> Size -> double -> double -> option Mat;
  resize : Mat -> Size -> double -> double -> Interpolation -> option Mat;
  invertAffineTransform : Matx -> option Matx;
  transform_vec : Point2f -> Matx -> option Point2f
}.

(** A [cv::Feature2D] backend:
    [detectAndCompute(image, mask, keypoints, descriptors, useProvidedKeypoints)],
    [keypoints] being read and written; [None] when it raises. *)
Record Feature2D := mkFeature2D {
  backend_detectAndCompute :
    Mat -> Mat -> list KeyPoint -> bool -> option (list KeyPoint * Mat)
}.

(** What a sample task asks of the backend: the arguments of the call at
    line 172, [keypoints] as the vector is on entry. *)
Record BackendCall := mkBackendCall {
  call_image : Mat;
  call_mask : Mat;
  call_keypoints : list KeyPoint;
  call_useProvidedKeypoints : bool
}.

(** Modelled from the spec: [affine_invariant_feature_base.hpp] is not part
    of the sources read here; the base class holds the backend
    [base_feature_], a pointer that may be null. *)
Record AffineInvariantFeature := mkAffineInvariantFeature {
  base_feature_ : option Feature2D
}.

(** [CV_8UC1] *)
Definition CV_8UC1 : Z := 0.

(** [CV_MAT_CN(type)]: the number of channels of a type tag. *)
Definition CV_MAT_CN (type : Z) : nat := Z.to_nat (Z.land (Z.shiftr type 3) 511) + 1.

(** [cv::Mat(size, type, s)]: every element set to [s]. *)
Definition Mat_filled (size : Size) (type : Z) (s : Z) : Mat :=
  mkMat type (width size) (replicate (height size) (replicate (width size * CV_MAT_CN type) s)).

Definition Mat_size (m : Mat) : Size := mkSize (mat_cols m) (mat_rows m).

(** The elements of a newly allocated matrix are not specified; this value
    stands for them. *)
Definition uninitialised : Z := 0.

(** [descriptors.create(rows, cols, type)]: a matrix of that shape and type
    is kept as it is, any other is replaced by a new allocation. *)
Definition Mat_create (m : Mat) (rows cols : nat) (type : Z) : Mat :=
  if (mat_rows m =? rows) && (mat_cols m =? cols) && (mat_type m =? type)%Z then m
  else mkMat type cols (replicate rows (replicate (cols * CV_MAT_CN type) uninitialised)).

(** [src.copyTo(dst.rowRange(start, start + src.rows))]. [rowRange] asserts
    that the range lies within [dst]; the range is handed to [copyTo] as a
    header of fixed size and type. For an empty [src], [copyTo] releases
    its destination, which a header of fixed size refuses with a
    [cv::Exception]; a [src] of another width or type cannot be copied
    into the header either. *)
Definition copyTo_rowRange (src dst : Mat) (start : nat) : outcome Mat :=
  let stop := start + mat_rows src in
  if negb (stop <=? mat_rows dst) then Raised
  else if Mat_empty src then Raised
  else if (mat_cols src =? mat_cols dst) && (mat_type src =? mat_type dst)%Z
  then Returned (mkMat (mat_type dst) (mat_cols dst)
                   (take start (mat_data dst) ++ mat_data src ++ drop stop (mat_data dst)))
  else Raised.

(** lines 67-73: the loop over [phi] for one tilt; [fuel] bounds the number
    of iterations the model follows. *)
Fixpoint phi_loop (fuel : nat) (tilt phi : double) (params : list double * list double)
    : option (list double * list double) :=
  match fuel with
  | O => None
  | S fuel' =>
      if dlt phi (dbl 180 0)
      then phi_loop fuel' tilt (dadd phi (ddiv (dbl 72 0) tilt))
             (params.1 ++ [tilt], params.2 ++ [phi])
      else Some params
  end.

(** lines 67-73: the loop over [i], for the values of [i] in [levels]. *)
Fixpoint tilt_loop `{Libm} (fuel : nat) (levels : list Z) (params : list double * list double)
    : option (list double * list double) :=
  match levels with
  | [] => Some params
  | i :: rest =>
      let tilt := pow (dbl 2 0) (dmul (dbl 1 (-1)) (double_of_int i)) in
      params' ← phi_loop fuel tilt (S754_zero false) params;
      tilt_loop fuel rest params'
  end.

(** lines 62-73: [(tilt_params, phi_params)] *)
Definition generate_params `{Libm} (fuel : nat) : option (list double * list double) :=
  let tilt_params : list double := [] in
  let phi_params : list double := [] in
  let tilt_params := tilt_params ++ [dbl 1 0] in
  let phi_params := phi_params ++ [S754_zero false] in
  tilt_loop fuel [1; 2; 3; 4; 5]%Z (tilt_params, phi_params).

(** The samples, one [(tilt, phi)] pair per task. *)
Definition sample_plan `{Libm} (fuel : nat) : option (list (double * double)) :=
  params ← generate_params fuel;
  Some (zip params.1 params.2).

Definition KeyPoint_set_pt (k : KeyPoint) (p : Point2f) : KeyPoint :=
  mkKeyPoint p (kp_size k) (kp_angle k) (kp_response k) (kp_octave k) (kp_class_id k).

(** [a(i, j) /= d] for a [float] entry and a [double] divisor. *)
Definition Matx_div (a : Matx) (i j : nat) (d : double) : Matx :=
  mkMatx (mx_rows a) (mx_cols a)
    (alter (fun x => demote (ddiv (promote x) d)) (i * mx_cols a + j) (mx_val a)).

(** The conversion of the [cv::Mat] that [cv::getRotationMatrix2D] returns
    to the [cv::Matx<float, m, n>] it is assigned to (line 133): the
    conversion asserts that the matrix has [m] rows and [n] columns. *)
Definition Matx_of_Mat (m n : nat) (a : Matx) : outcome Matx :=
  if (mx_rows a =? m) && (mx_cols a =? n) then Returned a else Raised.

(** lines 130-152: the rotation of the image; [affine] is a
    [cv::Matx32f]. *)
Definition rotate_image `{ImgProc} (image : Mat) (affine : Matx) (phi : double)
    : outcome (Mat * Matx) :=
  if dne phi (S754_zero false) then
    do rotation <-
      checked (getRotationMatrix2D (mkPoint2f (S754_zero false) (S754_zero false)) phi
                 (dbl 1 0));
    do affine <- Matx_of_Mat 3 2 rotation;
    let corners :=
      [ mkPoint2f (S754_zero false) (S754_zero false);
        mkPoint2f (float_of_int (Z.of_nat (mat_cols image))) (S754_zero false);
        mkPoint2f (float_of_int (Z.of_nat (mat_cols image))) (float_of_int (Z.of_nat (mat_rows image)));
        mkPoint2f (S754_zero false) (float_of_int (Z.of_nat (mat_rows image))) ] in
    do tmp_corners <- checked (transform_points corners affine);
    do tmp_rect <- checked (boundingRect tmp_corners);
    let affine := Matx_set affine 0 2 (float_of_int (- rect_x tmp_rect)) in
    let affine := Matx_set affine 1 2 (float_of_int (- rect_y tmp_rect)) in
    do image <-
      checked (warpAffine image affine (mkSize (rect_width tmp_rect) (rect_height tmp_rect))
                 INTER_LINEAR BORDER_REPLICATE);
    Returned (image, affine)
  else Returned (image, affine).

(** lines 153-160: the shrinking of the image in width; [0.8] and [0.01]
    are the doubles nearest to these decimals. *)
Definition tilt_image `{ImgProc} (image : Mat) (affine : Matx) (tilt : double)
    : outcome (Mat * Matx) :=
  if dne tilt (dbl 1 0) then
    do image <-
      checked (GaussianBlur image (mkSize 0 0)
                 (dmul (dbl 7205759403792794 (-53)) (dsqrt (dsub (dmul tilt tilt) (dbl 1 0))))
                 (dbl 5764607523034235 (-59)));
    do image <-
      checked (resize image (mkSize 0 0) (ddiv (dbl 1 0) tilt) (dbl 1 0) INTER_NEAREST);
    let affine := Matx_div affine 0 0 tilt in
    let affine := Matx_div affine 0 1 tilt in
    let affine := Matx_div affine 0 2 tilt in
    Returned (image, affine)
  else Returned (image, affine).

(** lines 162-169: the mask handed to the backend *)
Definition warp_mask `{ImgProc} (src_image src_mask image : Mat) (affine : Matx)
    (tilt phi : double) : outcome Mat :=
  let mask := src_mask in
  let mask := if Mat_empty mask then Mat_filled (Mat_size src_image) CV_8UC1 255 else mask in
  if dne phi (S754_zero false) || dne tilt (dbl 1 0)
  then checked (warpAffine mask affine (Mat_size image) INTER_NEAREST BORDER_CONSTANT)
  else Returned mask.

(** lines 177-183: the loop over the keypoints *)
Fixpoint invert_loop `{ImgProc} (invert_affine : Matx) (keypoints : list KeyPoint)
    : outcome (list KeyPoint) :=
  match keypoints with
  | [] => Returned []
  | keypoint :: rest =>
      do pt' <- checked (transform_vec (pt keypoint) invert_affine);
      do rest' <- invert_loop invert_affine rest;
      Returned (KeyPoint_set_pt keypoint pt' :: rest')
  end.

(** lines 174-183; [affine] and [invert_affine] are [cv::Matx32f]. *)
Definition invert_keypoints `{ImgProc} (affine : Matx) (keypoints : list KeyPoint)
    : outcome (list KeyPoint) :=
  do invert_affine <- checked (invertAffineTransform affine);
  invert_loop invert_affine keypoints.

(** lines 126-169: the image, the map and the mask of a sample *)
Definition prepare_sample `{ImgProc} (src_image src_mask : Mat) (tilt phi : double)
    : outcome (Mat * Matx * Mat) :=
  let affine := Matx32f_eye in
  let image := src_image in
  do (image, affine) <- rotate_image image affine phi;
  do (image, affine) <- tilt_image image affine tilt;
  do mask <- warp_mask src_image src_mask image affine tilt phi;
  Returned (image, affine, mask).

(** [AffineInvariantFeature::detectAndComputeImpl]; [keypoints] is the
    bound output vector as it is when the task runs. Besides its outcome
    the task gives the calls of the backend it made. *)
Definition detectAndComputeImpl `{ImgProc} (this : AffineInvariantFeature)
    (src_image src_mask : Mat) (keypoints : list KeyPoint)
    (tilt phi : double) (useProvidedKeypoints : bool)
    : list BackendCall * outcome (list KeyPoint * Mat) :=
  match base_feature_ this with
  | None => ([], Raised)
  | Some base_feature =>
      match prepare_sample src_image src_mask tilt phi with
      | Returned (image, affine, mask) =>
          ([mkBackendCall image mask keypoints useProvidedKeypoints],
           do (keypoints, descriptors) <-
             checked (backend_detectAndCompute base_feature image mask keypoints
                        useProvidedKeypoints);
           do keypoints <- invert_keypoints affine keypoints;
           Returned (keypoints, descriptors))
      | Raised => ([], Raised)
      | Undefined => ([], Undefined)
      end
  end.

(** lines 82-88: the tasks for the indices [indices] *)
Fixpoint bind_tasks `{ImgProc} (this : AffineInvariantFeature) (image_mat mask_mat : Mat)
    (tilt_params phi_params : list double) (useProvidedKeypoints : bool) (indices : list nat)
    : option (list (option (Task (list (list KeyPoint) * list Mat)))) :=
  match indices with
  | [] => Some []
  | i :: rest =>
      tilt ← tilt_params !! i;
      phi ← phi_params !! i;
      tasks ← bind_tasks this image_mat mask_mat tilt_params phi_params useProvidedKeypoints rest;
      Some (Some (slot_task i (fun keypoints =>
                    snd (detectAndComputeImpl this image_mat mask_mat keypoints tilt phi
                           useProvidedKeypoints))) :: tasks)
  end.

(** lines 107-115 *)
Fixpoint copy_rows (descriptors_array : list Mat) (descriptors_mat : Mat) (rows : nat)
    : outcome Mat :=
  match descriptors_array with
  | [] => Returned descriptors_mat
  | d :: rest =>
      do descriptors_mat <- copyTo_rowRange d descriptors_mat rows;
      copy_rows rest descriptors_mat (rows + mat_rows d)
  end.

(** lines 93-115: [keypoints] and [descriptors] are the caller's outputs as
    they are on entry. *)
Definition merge (keypoints_array : list (list KeyPoint)) (descriptors_array : list Mat)
    (keypoints : list KeyPoint) (descriptors : Mat) : outcome (list KeyPoint * Mat) :=
  let keypoints : list KeyPoint := [] in
  let keypoints := keypoints ++ concat keypoints_array in
  let descriptors :=
    match find (fun d => negb (Mat_empty d)) descriptors_array with
    | Some d => Mat_create descriptors (length keypoints) (mat_cols d) (mat_type d)
    | None => descriptors
    end in
  do descriptors_mat <- copy_rows descriptors_array descriptors 0;
  Returned (keypoints, descriptors_mat).

(** lines 75-115, for given parameter vectors; their size is taken to fit
    an [int]. *)
Definition detect_samples `{ImgProc} (this : AffineInvariantFeature)
    (tilt_params phi_params : list double) (sched : list nat) (image_mat mask_mat : Mat)
    (keypoints : list KeyPoint) (descriptors : Mat) (useProvidedKeypoints : bool)
    : outcome (list KeyPoint * Mat) :=
  let ntasks := length tilt_params in
  let keypoints_array : list (list KeyPoint) := replicate ntasks [] in
  let descriptors_array : list Mat := replicate ntasks Mat_new in
  do tasks <- defined (bind_tasks this image_mat mask_mat tilt_params phi_params
                         useProvidedKeypoints (seq 0 ntasks));
  do (keypoints_array, descriptors_array) <-
    run_tasks tasks sched (keypoints_array, descriptors_array);
  merge keypoints_array descriptors_array keypoints descriptors.

(** [AffineInvariantFeature::detectAndCompute]. [None]: the parameter loops
    did not finish within [fuel] iterations each. *)
Definition detectAndCompute `{Libm} `{ImgProc} (this : AffineInvariantFeature)
    (fuel : nat) (sched : list nat) (image mask : Mat)
    (keypoints : list KeyPoint) (descriptors : Mat) (useProvidedKeypoints : bool)
    : option (outcome (list KeyPoint * Mat)) :=
  match base_feature_ this with
  | None => Some Raised
  | Some _ =>
      params ← generate_params fuel;
      Some (detect_samples this params.1 params.2 sched image mask keypoints descriptors
              useProvidedKeypoints)
  end.

(* ===================================================================== *)
(** * The constructor of ResultMatcher *)
(* ===================================================================== *)

(** [cv::NORM_L2] and [cv::NORM_HAMMING] *)
Definition NORM_L2 : Z := 4.
Definition NORM_HAMMING : Z := 6.

(** [cv::flann::KDTreeIndexParams(trees)] and
    [cv::flann::LshIndexParams(table_number, key_size, multi_probe_level)] *)
Inductive IndexParams :=
| KDTreeIndexParams (trees : Z)
| LshIndexParams (table_number key_size multi_probe_level : Z).

(** A [cv::FlannBasedMatcher] with these index parameters, after
    [add(descriptors)] and [train()]; the two calls can raise. *)
Class Flann := {
  FlannBasedMatcher_trained : IndexParams -> Mat -> outcome DescriptorMatcher
}.

(** [ResultMatcher::ResultMatcher], lines 22-38 of result_matcher.hpp;
    [reference] is a pointer that may be null. *)
Definition ResultMatcher_new `{Flann} (reference : option Results) : outcome ResultMatcher :=
  match reference with
  | None => Raised
  | Some reference_ =>
      let matcher_ : option IndexParams :=
        if (normType reference_ =? NORM_L2)%Z then Some (KDTreeIndexParams 4)
        else if (normType reference_ =? NORM_HAMMING)%Z then Some (LshIndexParams 6 12 1)
        else None in
      match matcher_ with
      | None => Raised
      | Some params =>
          do matcher_ <- FlannBasedMatcher_trained params (descriptors reference_);
          Returned (mkResultMatcher reference_ matcher_)
      end
  end.

(** [ResultMatcher::getReference] *)
Definition getReference (this : ResultMatcher) : Results := reference_ this.

(* ===================================================================== *)
(** * Feature parameters *)
(* ===================================================================== *)

(** feature_parameters.hpp: the parameter sets and their names, their
    creation by name, and [read] and [write]. *)

Record AKAZEParameters := mkAKAZEParameters {
  akaze_descriptorType : Z;
  akaze_descriptorSize : Z;
  akaze_descriptorChannels : Z;
  akaze_threshold : float;
  akaze_nOctaves : Z;
  akaze_nOctaveLayers : Z;
  akaze_diffusivity : Z
}.

Record BRISKParameters := mkBRISKParameters {
  brisk_threshold : Z;
  brisk_nOctaves : Z;
  brisk_patternScale : float
}.

Record SIFTParameters := mkSIFTParameters {
  sift_nfeatures : Z;
  sift_nOctaveLayers : Z;
  sift_contrastThreshold : double;
  sift_edgeThreshold : double;
  sift_sigma : double
}.

Record SURFParameters := mkSURFParameters {
  surf_hessianThreshold : double;
  surf_nOctaves : Z;
  surf_nOctaveLayers : Z;
  surf_extended : bool;
  surf_upright : bool
}.

(** A [FeatureParameters] object; [AIFParameters] is a vector of pointers
    to parameter sets, each of which may be null. *)
Inductive FeatureParameters :=
| AIF (entries : list (option FeatureParameters))
| AKAZE (p : AKAZEParameters)
| BRISK (p : BRISKParameters)
| SIFT (p : SIFTParameters)
| SURF (p : SURFParameters).

(** The values the getters of [cv::AKAZE::create()] and of
    [cv::xfeatures2d::SURF::create()] give; [None] when the default object
    cannot be had, so that [defaultAKAZE()] or [defaultSURF()] raises. *)
Class Features2d := {
  defaultAKAZE : option AKAZEParameters;
  defaultSURF : option SURFParameters
}.

(** The constructors, lines 90-96, 151, 187-188 and 229-232; [0.04] and
    [1.6] are the doubles nearest to these decimals. *)
Definition AKAZEParameters_new `{Features2d} : outcome AKAZEParameters :=
  match defaultAKAZE with
  | Some d => Returned d
  | None => Raised
  end.

Definition BRISKParameters_new : BRISKParameters :=
  mkBRISKParameters 30 3 (flt 1 0).

Definition SIFTParameters_new : SIFTParameters :=
  mkSIFTParameters 0 3 (dbl 5764607523034235 (-57)) (dbl 10 0) (dbl 7205759403792794 (-52)).

Definition SURFParameters_new `{Features2d} : outcome SURFParameters :=
  match defaultSURF with
  | Some d => Returned d
  | None => Raised
  end.

(** [getDefaultName] *)
Definition getDefaultName (this : FeatureParameters) : String.string :=
  match this with
  | AIF _ => "AIFParameters"
  | AKAZE _ => "AKAZEParameters"
  | BRISK _ => "BRISKParameters"
  | SIFT _ => "SIFTParameters"
  | SURF _ => "SURFParameters"
  end%string.

(** [createFeatureParameters], lines 278-293: every candidate is
    constructed, then its name is compared; [Returned None] is the null
    pointer. *)
Definition createFeatureParameters `{Features2d} (type_name : String.string)
    : outcome (option FeatureParameters) :=
  let params := AIF [] in
  if String.eqb type_name (getDefaultName params) then Returned (Some params) else
  do akaze <- AKAZEParameters_new;
  let params := AKAZE akaze in
  if String.eqb type_name (getDefaultName params) then Returned (Some params) else
  let params := BRISK BRISKParameters_new in
  if String.eqb type_name (getDefaultName params) then Returned (Some params) else
  let params := SIFT SIFTParameters_new in
  if String.eqb type_name (getDefaultName params) then Returned (Some params) else
  do surf <- SURFParameters_new;
  let params := SURF surf in
  if String.eqb type_name (getDefaultName params) then Returned (Some params) else
  Returned None.

(** A [cv::FileNode] of a parsed file: its name when it has one
    ([isNamed], [name]), the nodes an iteration from [begin()] to [end()]
    yields, and the text it holds besides. *)
Inductive FileNode :=
| mkFileNode (name : option String.string) (children : list FileNode) (text : String.string).

Definition node_name (fn : FileNode) : option String.string :=
  match fn with mkFileNode name _ _ => name end.

Definition node_children (fn : FileNode) : list FileNode :=
  match fn with mkFileNode _ children _ => children end.

(** [fn[key] >> value] for the four types of value the parameters have;
    the look-up of [key] can raise. *)
Class FileNodeReader := {
  node_int : FileNode -> String.string -> outcome Z;
  node_float : FileNode -> String.string -> outcome float;
  node_double : FileNode -> String.string -> outcome double;
  node_bool : FileNode -> String.string -> outcome bool
}.

(** lines 56-67: the loop of [AIFParameters::read] over the nodes [nodes],
    [read] being the [read] of the created parameter set. *)
Definition read_entries `{Features2d}
    (read : FeatureParameters -> FileNode -> outcome FeatureParameters) :=
  fix loop (nodes : list FileNode) (entries : list (option FeatureParameters))
      : outcome FeatureParameters :=
    match nodes with
    | [] => Returned (AIF entries)
    | node :: rest =>
        match node_name node with
        | None => loop rest entries
        | Some name =>
            do p <- createFeatureParameters name;
            match p with
            | None => loop rest entries
            | Some p =>
                do p <- read p node;
                loop rest (entries ++ [Some p])
            end
        end
    end.

(** [read], lines 55-68, 105-113, 159-163, 197-203 and 241-247 *)
Fixpoint FeatureParameters_read `{Features2d} `{FileNodeReader}
    (this : FeatureParameters) (fn : FileNode) {struct fn} : outcome FeatureParameters :=
  match this with
  | AIF _ =>
      match fn with
      | mkFileNode _ children _ =>
          read_entries (fun p node => FeatureParameters_read p node) children []
      end
  | AKAZE _ =>
      do descriptorType <- node_int fn "descriptorType";
      do descriptorSize <- node_int fn "descriptorSize";
      do descriptorChannels <- node_int fn "descriptorChannels";
      do threshold <- node_float fn "threshold";
      do nOctaves <- node_int fn "nOctaves";
      do nOctaveLayers <- node_int fn "nOctaveLayers";
      do diffusivity <- node_int fn "diffusivity";
      Returned (AKAZE (mkAKAZEParameters descriptorType descriptorSize descriptorChannels
                         threshold nOctaves nOctaveLayers diffusivity))
  | BRISK _ =>
      do threshold <- node_int fn "threshold";
      do nOctaves <- node_int fn "nOctaves";
      do patternScale <- node_float fn "patternScale";
      Returned (BRISK (mkBRISKParameters threshold nOctaves patternScale))
  | SIFT _ =>
      do nfeatures <- node_int fn "nfeatures";
      do nOctaveLayers <- node_int fn "nOctaveLayers";
      do contrastThreshold <- node_double fn "contrastThreshold";
      do edgeThreshold <- node_double fn "edgeThreshold";
      do sigma <- node_double fn "sigma";
      Returned (SIFT (mkSIFTParameters nfeatures nOctaveLayers contrastThreshold
                        edgeThreshold sigma))
  | SURF _ =>
      do hessianThreshold <- node_double fn "hessianThreshold";
      do nOctaves <- node_int fn "nOctaves";
      do nOctaveLayers <- node_int fn "nOctaveLayers";
      do extended <- node_bool fn "extended";
      do upright <- node_bool fn "upright";
      Returned (SURF (mkSURFParameters hessianThreshold nOctaves nOctaveLayers
                        extended upright))
  end%string.

(** What is handed to [cv::FileStorage] with [<<]. *)
Inductive Token :=
| TString (s : String.string)
| TInt (z : Z)
| TFloat (f : float)
| TDouble (d : double)
| TBool (b : bool).

(** [write], lines 70-79, 115-123, 165-169, 205-211 and 249-255 *)
Fixpoint FeatureParameters_write (this : FeatureParameters) : list Token :=
  match this with
  | AIF entries =>
      flat_map (fun p =>
        match p with
        | None => []
        | Some p =>
            [TString (getDefaultName p); TString "{"]
            ++ FeatureParameters_write p ++ [TString "}"]
        end) entries
  | AKAZE p =>
      [TString "descriptorType"; TInt (akaze_descriptorType p);
       TString "descriptorSize"; TInt (akaze_descriptorSize p);
       TString "descriptorChannels"; TInt (akaze_descriptorChannels p);
       TString "threshold"; TFloat (akaze_threshold p);
       TString "nOctaves"; TInt (akaze_nOctaves p);
       TString "nOctaveLayers"; TInt (akaze_nOctaveLayers p);
       TString "diffusivity"; TInt (akaze_diffusivity p)]
  | BRISK p =>
      [TString "threshold"; TInt (brisk_threshold p);
       TString "nOctaves"; TInt (brisk_nOctaves p);
       TString "patternScale"; TFloat (brisk_patternScale p)]
  | SIFT p =>
      [TString "nfeatures"; TInt (sift_nfeatures p);
       TString "nOctaveLayers"; TInt (sift_nOctaveLayers p);
       TString "contrastThreshold"; TDouble (sift_contrastThreshold p);
       TString "edgeThreshold"; TDouble (sift_edgeThreshold p);
       TString "sigma"; TDouble (sift_sigma p)]
  | SURF p =>
      [TString "hessianThreshold"; TDouble (surf_hessianThreshold p);
       TString "nOctaves"; TInt (surf_nOctaves p);
       TString "nOctaveLayers"; TInt (surf_nOctaveLayers p);
       TString "extended"; TBool (surf_extended p);
       TString "upright"; TBool (surf_upright p)]
  end%string.

(* ===================================================================== *)
(** * Vocabulary of the statements *)
(* ===================================================================== *)

(** A row whose nearest distance equals 0.75 times the second one. *)
Definition at_ratio_boundary (row : list DMatch) : Prop :=
  exists m0 m1 more, row = m0 :: m1 :: more /\
    deq (promote (distance m0)) (dmul ratio (promote (distance m1))) = true.

(** The row contributes nothing to [unique_matches]. *)
Definition excluded_by_ratio_test (row : list DMatch) : Prop :=
  forall before after : list (list DMatch),
    filter_unique (before ++ row :: after) = filter_unique before ++ filter_unique after.

(** The number of rows of a list of matrices. *)
Definition sum_rows (ds : list Mat) : nat := sum_list (mat_rows <$> ds).

(** The [n] rows of [m] from row [start] on. *)
Definition rows_at (m : Mat) (start n : nat) : list (list Z) :=
  take n (drop start (mat_data m)).

(** The feature with the backend [base_feature]. *)
Definition feature_of (base_feature : Feature2D) : AffineInvariantFeature :=
  mkAffineInvariantFeature (Some base_feature).

(** What the task of the sample [(tilt, phi)] comes to with the backend
    [base_feature], from the keypoints its output vector holds. *)
Definition sample_output `{ImgProc} (base_feature : Feature2D) (src_image src_mask : Mat)
    (keypoints : list KeyPoint) (useProvidedKeypoints : bool) (sample : double * double)
    : outcome (list KeyPoint * Mat) :=
  (detectAndComputeImpl (feature_of base_feature) src_image src_mask keypoints
     sample.1 sample.2 useProvidedKeypoints).2.

(** What the tasks of all the samples of a plan come to, in the order of
    the plan; every task starts from an empty keypoint vector. *)
Definition sample_outputs `{ImgProc} (base_feature : Feature2D) (image mask : Mat)
    (useProvidedKeypoints : bool) (plan : list (double * double))
    : list (outcome (list KeyPoint * Mat)) :=
  sample_output base_feature image mask [] useProvidedKeypoints <$> plan.

(** The results of calls that all return; the first failure otherwise. *)
Fixpoint gather {X : Type} (calls : list (outcome X)) : outcome (list X) :=
  match calls with
  | [] => Returned []
  | call :: rest =>
      do x <- call;
      do xs <- gather rest;
      Returned (x :: xs)
  end.

(** The worker of task [i]. *)
Definition sample_worker `{ImgProc} (this : AffineInvariantFeature) (image mask : Mat)
    (tilt_params phi_params : list double) (flag : bool) (i : nat)
    : list KeyPoint -> outcome (list KeyPoint * Mat) :=
  fun keypoints =>
    (detectAndComputeImpl this image mask keypoints
       (default S754_nan (tilt_params !! i)) (default S754_nan (phi_params !! i)) flag).2.

(** A 2x3 matrix. *)
Definition affine_shape (a : Matx) : bool := (mx_rows a =? 2) && (mx_cols a =? 3).

(** [cv::warpAffine] and [cv::invertAffineTransform] assert that the map
    they are given is a 2x3 matrix. *)
Definition asserts_affine_shape `{ImgProc} : Prop :=
  (forall src a size interpolation border,
     affine_shape a = false -> warpAffine src a size interpolation border = None) /\
  (forall a, affine_shape a = false -> invertAffineTransform a = None).

(** Asked to describe the keypoints it is given, the backend returns these
    keypoints and a descriptor row for each. *)
Definition describes_provided_keypoints (base_feature : Feature2D) : Prop :=
  forall image mask keypoints, exists descriptors,
    backend_detectAndCompute base_feature image mask keypoints true
    = Some (keypoints, descriptors) /\
    mat_rows descriptors = length keypoints.

(** The mask the backend gets for the identity sample. *)
Definition identity_sample_mask (src_image src_mask : Mat) : Mat :=
  if Mat_empty src_mask then Mat_filled (Mat_size src_image) CV_8UC1 255 else src_mask.

(** The contract of a backend on the outputs of the samples: one
    descriptor row per keypoint, no row in a matrix without elements, and
    the same width and type for all the matrices that have elements. *)
Definition well_formed_outputs (outputs : list (list KeyPoint * Mat)) : Prop :=
  (forall o, o ∈ outputs ->
     mat_rows o.2 = length o.1 /\ (Mat_empty o.2 = true -> mat_rows o.2 = 0)) /\
  (forall o o', o ∈ outputs -> o' ∈ outputs ->
     Mat_empty o.2 = false -> Mat_empty o'.2 = false ->
     mat_cols o.2 = mat_cols o'.2 /\ mat_type o.2 = mat_type o'.2).

(** [v[i]] is an element of [v]. *)
Definition index_in_range {A : Type} (v : list A) (i : Z) : Prop :=
  (0 <= i < Z.of_nat (length v))%Z.

(** The candidates whose mask entry is not zero, in their order. *)
Definition inliers (unique_matches : list DMatch) (mask : list Z) : list DMatch :=
  (filter (fun p => p.2 <> 0%Z) (zip unique_matches mask)).*1.

(** ** The sample plan in the spec's words *)

(** [sqrt(2)], correctly rounded. *)
Definition sqrt2 : double := dsqrt (dbl 2 0).

(** The double nearest to [2^(0.5 * i)]: a power of two for even [i],
    [sqrt(2)] times a power of two for odd [i]. *)
Definition tilt_level (i : Z) : double :=
  if Z.even i then dbl 1 (i / 2) else dmul sqrt2 (dbl 1 (i / 2)).

(** [pow(2., 0.5 * i)] is correctly rounded for [i = 1 .. 5]. *)
Definition correctly_rounded_pow `{Libm} : Prop :=
  forall i : Z, (1 <= i <= 5)%Z ->
    pow (dbl 2 0) (dmul (dbl 1 (-1)) (double_of_int i)) = tilt_level i.

(** The [k]-th angle at a tilt: [0], stepped [k] times by [72 / tilt]. *)
Definition angle (tilt : double) (k : nat) : double :=
  Nat.iter k (fun phi => dadd phi (ddiv (dbl 72 0) tilt)) (S754_zero false).

(** The number of angles below 180 degrees at tilt level [i]. *)
Definition angle_count (i : Z) : nat :=
  match i with
  | 1%Z => 4
  | 2%Z => 5
  | 3%Z => 8
  | 4%Z => 10
  | 5%Z => 15
  | _ => 0
  end.

Definition angles_of_level (i : Z) : list double :=
  map (angle (tilt_level i)) (seq 0 (angle_count i)).

(** Modelled from the spec: "tilt levels 2^(0.5 i) for i = 1..5, plus
    identity; at each tilt level, rotation angles stepped by 72/tilt over
    [0, 180)". *)
Definition plan_of_the_spec : list (double * double) :=
  (dbl 1 0, S754_zero false)
  :: flat_map (fun i => map (fun phi => (tilt_level i, phi)) (angles_of_level i))
       [1; 2; 3; 4; 5]%Z.

Fixpoint strictly_increasing (l : list double) : bool :=
  match l with
  | x :: (y :: _) as rest => dlt x y && strictly_increasing rest
  | _ => true
  end.

(** [x] is [y] or the double next above [y]. *)
Definition within_one_ulp (x y : double) : bool :=
  deq x y || deq x (SFsucc 53 1024 y).

(** The [k]-th angle is [k * (72 / tilt)], up to the rounding of the [k]
    additions. *)
Definition angles_are_multiples (i : Z) : bool :=
  forallb (fun k => within_one_ulp (angle (tilt_level i) k)
                      (dmul (double_of_int (Z.of_nat k)) (ddiv (dbl 72 0) (tilt_level i))))
          (seq 0 (angle_count i)).

(** The names [createFeatureParameters] knows. *)
Definition parameter_names : list String.string :=
  ["AIFParameters"; "AKAZEParameters"; "BRISKParameters"; "SIFTParameters";
   "SURFParameters"]%string.

Definition known_name (name : String.string) : bool :=
  existsb (String.eqb name) parameter_names.

(** The nodes among [nodes] with a name that [createFeatureParameters]
    knows, in the order of the nodes. *)
Definition known_nodes (nodes : list FileNode) : list FileNode :=
  List.filter (fun node =>
    match node_name node with
    | Some name => known_name name
    | None => false
    end) nodes.

(** [p] is what [read] makes of the parameters created for the name of
    [node]. *)
Definition read_of_node `{Features2d} `{FileNodeReader}
    (p : FeatureParameters) (node : FileNode) : Prop :=
  exists name created,
    node_name node = Some name /\
    createFeatureParameters name = Returned (Some created) /\
    FeatureParameters_read created node = Returned p /\
    getDefaultName p = name.

(** No look-up of the reader raises. *)
Definition returns {A : Type} (o : outcome A) : Prop := exists a, o = Returned a.

Definition reader_returns `{FileNodeReader} : Prop :=
  forall fn key,
    returns (node_int fn key) /\ returns (node_float fn key) /\
    returns (node_double fn key) /\ returns (node_bool fn key).

(** The depth of open groups after [tokens], starting from [depth]; [None]
    when a group is closed that was not opened. *)
Fixpoint nesting (tokens : list Token) (depth : nat) : option nat :=
  match tokens with
  | [] => Some depth
  | TString s :: rest =>
      if String.eqb s "{" then nesting rest (S depth)
      else if String.eqb s "}" then
        match depth with
        | 0 => None
        | S depth => nesting rest depth
        end
      else nesting rest depth
  | _ :: rest => nesting rest depth
  end.

(* ===================================================================== *)
(** * Concrete inputs *)
(* ===================================================================== *)

(** Inputs the statements below are evaluated on. *)

Definition keypoint_at (x y : Z) : KeyPoint :=
  mkKeyPoint (mkPoint2f (flt x 0) (flt y 0)) (flt 1 0) (flt 0 0) (flt 1 0) 0 (-1).

Definition square_keypoints : list KeyPoint :=
  [keypoint_at 0 0; keypoint_at 8 0; keypoint_at 8 8; keypoint_at 0 8].

(** Four keypoints with one-byte descriptors. *)
Definition square_results : Results :=
  mkResults square_keypoints (mkMat 0 1 [[10]; [20]; [30]; [40]]%Z) 4.

(** Three of them. *)
Definition triangle_results : Results :=
  mkResults (take 3 square_keypoints) (mkMat 0 1 [[10]; [20]; [30]]%Z) 4.

(** A row of two neighbours at distances 3 and 4: 3 = 0.75 * 4. *)
Definition boundary_nearest : DMatch := mkDMatch 0 0 0 (flt 3 0).
Definition boundary_second : DMatch := mkDMatch 0 1 0 (flt 4 0).
Definition boundary_row : list DMatch := [boundary_nearest; boundary_second].

(** An index that pairs query row [i] with reference row [i] at distance 1,
    the second neighbour being at distance 4. *)
Definition diagonal_matcher : DescriptorMatcher :=
  mkDescriptorMatcher (fun query k =>
    imap (fun i _ => [mkDMatch (Z.of_nat i) (Z.of_nat i) 0 (flt 1 0);
                      mkDMatch (Z.of_nat i) (Z.of_nat ((i + 1) mod 4)) 0 (flt 4 0)])
         (mat_data query)).

Definition square_matcher : ResultMatcher := mkResultMatcher square_results diagonal_matcher.

(** An estimator that finds no model, and one that accepts every pair. *)
Definition no_model : Calib3d :=
  {| findHomography := fun _ _ _ _ => NoModel |}.
Definition all_inliers : Calib3d :=
  {| findHomography := fun source_points _ _ _ =>
       Fitted Matx33f_eye (replicate (length source_points) 1%Z) |}.

(** A transform that is not the identity, and output vectors a caller has
    used before. *)
Definition shift_transform : Matx := Matx_set Matx33f_eye 0 2 (flt 5 0).
Definition used_transforms : list Matx := [shift_transform; shift_transform].
Definition used_matches : list (list DMatch) := [[boundary_nearest]; []].

(** The matches of the square with itself. *)
Definition diagonal_matches : list DMatch :=
  map (fun i => mkDMatch i i 0 (flt 1 0)) [0; 1; 2; 3]%Z.

(** A null matcher and a valid one. *)
Definition null_and_square : list (option ResultMatcher) := [None; Some square_matcher].

(** A libm whose [pow] is the table of the five values the detector asks
    for. *)
Definition table_libm : Libm :=
  {| pow := fun x y =>
       if deq y (dbl 1 (-1)) then tilt_level 1
       else if deq y (dbl 1 0) then tilt_level 2
       else if deq y (dbl 3 (-1)) then tilt_level 3
       else if deq y (dbl 2 0) then tilt_level 4
       else if deq y (dbl 5 (-1)) then tilt_level 5
       else S754_nan |}.

(** An imgproc that checks nothing and leaves images, matrices and points
    as they are, and one that gives 2x3 rotations and refuses every other
    shape of map, as OpenCV does. *)
Definition plain_imgproc : ImgProc :=
  {| getRotationMatrix2D := fun _ _ _ => Some Matx32f_eye;
     transform_points := fun points _ => Some points;
     boundingRect := fun _ => Some (mkRect 0 0 0 0);
     warpAffine := fun image _ _ _ _ => Some image;
     GaussianBlur := fun image _ _ _ => Some image;
     resize := fun image _ _ _ _ => Some image;
     invertAffineTransform := fun a => Some a;
     transform_vec := fun p _ => Some p |}.

Definition asserting_imgproc : ImgProc :=
  {| getRotationMatrix2D := fun _ _ _ => Some (Matx_eye 2 3);
     transform_points := fun points _ => Some points;
     boundingRect := fun _ => Some (mkRect 0 0 0 0);
     warpAffine := fun image a _ _ _ => if affine_shape a then Some image else None;
     GaussianBlur := fun image _ _ _ => Some image;
     resize := fun image _ _ _ _ => Some image;
     invertAffineTransform := fun a => if affine_shape a then Some a else None;
     transform_vec := fun p _ => Some p |}.

(** A backend that finds nothing, one that finds a corner in every image,
    and one that only describes the keypoints it is given when asked
    to. *)
Definition blind_backend : Feature2D :=
  mkFeature2D (fun _ _ _ _ => Some ([], Mat_new)).
Definition corner_backend : Feature2D :=
  mkFeature2D (fun _ _ _ _ => Some ([keypoint_at 1 1], mkMat 0 1 [[7%Z]])).
Definition provided_only_backend : Feature2D :=
  mkFeature2D (fun _ _ keypoints useProvidedKeypoints =>
    if useProvidedKeypoints
    then Some (keypoints, mkMat 0 1 (replicate (length keypoints) [7%Z]))
    else Some ([keypoint_at 1 1], mkMat 0 1 [[7%Z]])).

(** A 2x2 image, and a descriptor matrix left from an earlier call. *)
Definition tile_image : Mat := mkMat 0 2 [[1; 2]; [3; 4]]%Z.
Definition earlier_descriptors : Mat := mkMat 0 1 [[9%Z]].

(** An index whose second row points outside a reference of four
    keypoints. *)
Definition stray_matcher : ResultMatcher :=
  mkResultMatcher square_results
    (mkDescriptorMatcher (fun query k =>
       imap (fun i _ => [mkDMatch (Z.of_nat i) (if i =? 1 then 7 else Z.of_nat i) 0 (flt 1 0);
                         mkDMatch (Z.of_nat i) 0 0 (flt 4 0)])
            (mat_data query))).

(** An index that finds one neighbour per row only. *)
Definition single_neighbour_matcher : ResultMatcher :=
  mkResultMatcher square_results
    (mkDescriptorMatcher (fun query k =>
       imap (fun i _ => [mkDMatch (Z.of_nat i) (Z.of_nat i) 0 (flt 1 0)]) (mat_data query))).

(** An estimator that accepts the first and the last of four pairs, and one
    that fills a mask of two entries only. *)
Definition two_inliers : Calib3d :=
  {| findHomography := fun _ _ _ _ => Fitted shift_transform [1; 0; 0; 255]%Z |}.
Definition short_mask : Calib3d :=
  {| findHomography := fun _ _ _ _ => Fitted shift_transform [1; 1]%Z |}.

(** A matching library that trains every index to the diagonal matcher. *)
Definition diagonal_flann : Flann :=
  {| FlannBasedMatcher_trained := fun _ _ => Returned diagonal_matcher |}.

(** Default AKAZE and SURF values, a library that has both, one without
    AKAZE and one without SURF. *)
Definition sample_akaze : AKAZEParameters :=
  mkAKAZEParameters 5 0 3 (flt 1 (-10)) 4 4 1.

Definition sample_surf : SURFParameters :=
  mkSURFParameters (dbl 100 0) 4 3 false false.

Definition full_features2d : Features2d :=
  {| defaultAKAZE := Some sample_akaze; defaultSURF := Some sample_surf |}.

Definition no_akaze : Features2d :=
  {| defaultAKAZE := None; defaultSURF := Some sample_surf |}.

Definition no_surf : Features2d :=
  {| defaultAKAZE := Some sample_akaze; defaultSURF := None |}.

(** A reader that finds the same values under every key. *)
Definition constant_reader : FileNodeReader :=
  {| node_int := fun _ _ => Returned 7%Z;
     node_float := fun _ _ => Returned (flt 1 0);
     node_double := fun _ _ => Returned (dbl 1 0);
     node_bool := fun _ _ => Returned true |}.

(** A file with a SIFT group, a node without a name, a group of another
    name and a nested group. *)
Definition sample_file : FileNode :=
  mkFileNode None
    [mkFileNode (Some "SIFTParameters"%string)
       [mkFileNode (Some "nfeatures"%string) [] "7"%string] String.EmptyString;
     mkFileNode None [] "text"%string;
     mkFileNode (Some "ORBParameters"%string) [] String.EmptyString;
     mkFileNode (Some "AIFParameters"%string)
       [mkFileNode (Some "BRISKParameters"%string) [] String.EmptyString]
       String.EmptyString]
    String.EmptyString.

(* ===================================================================== *)
(** * Properties of the result matcher *)
(* ===================================================================== *)

Section ieee_facts.

Lemma SFcompare_Eq_sym (x y : spec_float) :
  SFcompare x y = Some Eq -> SFcompare y x = Some Eq.
Proof.
  assert (finite : forall (mx my : positive) (ex ey : Z),
            match (ex ?= ey)%Z with
            | Eq => Pos.compare_cont Eq mx my
            | Lt => Lt
            | Gt => Gt
            end = Eq -> ex = ey /\ mx = my).
  { intros mx my ex ey. destruct (Z.compare_spec ex ey) as [->| |]; try discriminate.
    intros E. split; [reflexivity|]. now apply Pos.compare_eq. }
  assert (finite' : forall (mx my : positive) (ex ey : Z),
            match (ex ?= ey)%Z with
            | Eq => CompOpp (Pos.compare_cont Eq mx my)
            | Lt => Gt
            | Gt => Lt
            end = Eq -> ex = ey /\ mx = my).
  { intros mx my ex ey. destruct (Z.compare_spec ex ey) as [->| |]; try discriminate.
    intros E. split; [reflexivity|]. apply Pos.compare_eq.
    change (Pos.compare_cont Eq mx my) with (mx ?= my)%positive in E.
    destruct (mx ?= my)%positive; simpl in E; congruence. }
  destruct x as [sx| sx | |sx mx ex], y as [sy|sy| |sy my ey]; simpl;
    try destruct sx; try destruct sy; try discriminate; try reflexivity;
    intros E; injection E as E.
  - apply finite' in E as [-> ->].
    rewrite Z.compare_refl.
    change (Pos.compare_cont Eq my my) with (my ?= my)%positive.
    now rewrite Pos.compare_refl.
  - apply finite in E as [-> ->].
    rewrite Z.compare_refl.
    change (Pos.compare_cont Eq my my) with (my ?= my)%positive.
    now rewrite Pos.compare_refl.
Qed.

(** [x == y] excludes [y > x] and [x > y]. *)
Lemma deq_not_dgt (x y : double) : deq x y = true -> dgt x y = false.
Proof.
  unfold deq, dgt, SFeqb, SFltb. intros E.
  destruct (SFcompare x y) as [[]|] eqn:C; try discriminate.
  rewrite (SFcompare_Eq_sym _ _ C). reflexivity.
Qed.

End ieee_facts.

Section matcher_facts.
Context `{Calib3d}.

Lemma filter_unique_app (xs ys : list (list DMatch)) :
  filter_unique (xs ++ ys) = filter_unique xs ++ filter_unique ys.
Proof.
  induction xs as [|m xs IH]; simpl; [reflexivity|].
  destruct (ratio_test m); simpl; now rewrite IH.
Qed.

(** C1, as stated, fails: the row with distances 3 and 4 is exactly at the
    0.75 boundary, and the ratio test of [match] does not exclude it. *)
Lemma ratio_boundary_row_not_excluded :
  at_ratio_boundary boundary_row /\ ~ excluded_by_ratio_test boundary_row.
Proof.
  split.
  - exists boundary_nearest, boundary_second, []. split; reflexivity.
  - intros Hex. specialize (Hex [] []). vm_compute in Hex. discriminate.
Qed.

(** C1, amended: a query row with two neighbours whose nearest distance
    equals 0.75 times the second-nearest distance passes the ratio test of
    [match]: its nearest neighbour is among the ratio-surviving matches, at
    the row's place. A row with two neighbours is excluded when
    [distance1 > 0.75 * distance2], and only then. *)
Theorem ratio_boundary_row_is_kept (before after : list (list DMatch))
    (m0 m1 : DMatch) (more : list DMatch) :
  let row := m0 :: m1 :: more in
  let above := dgt (promote (distance m0)) (dmul ratio (promote (distance m1))) in
  (deq (promote (distance m0)) (dmul ratio (promote (distance m1))) = true ->
   ratio_test row = Some m0 /\
   filter_unique (before ++ row :: after) = filter_unique before ++ m0 :: filter_unique after) /\
  (above = false ->
   filter_unique (before ++ row :: after) = filter_unique before ++ m0 :: filter_unique after) /\
  (ratio_test row = None <-> above = true) /\
  (excluded_by_ratio_test row <-> above = true).
Proof.
  intros row above.
  assert (Hkept : above = false ->
            ratio_test row = Some m0 /\
            filter_unique (before ++ row :: after)
            = filter_unique before ++ m0 :: filter_unique after).
  { intros Habove.
    assert (T : ratio_test row = Some m0).
    { unfold row, ratio_test. fold above. now rewrite Habove. }
    split; [exact T|].
    rewrite filter_unique_app. cbn [filter_unique]. now rewrite T. }
  assert (Hnone : above = true -> ratio_test row = None).
  { intros Habove. unfold row, ratio_test. fold above. now rewrite Habove. }
  split; [|split; [|split]].
  - intros E. apply Hkept. now apply deq_not_dgt.
  - intros Habove. now apply Hkept.
  - split; [|exact Hnone].
    destruct above eqn:Habove; [reflexivity|].
    destruct (Hkept eq_refl) as [T _]. rewrite T. discriminate.
  - split.
    + intros Hex. destruct above eqn:Habove; [reflexivity|].
      specialize (Hex [] []). cbn [app filter_unique] in Hex.
      assert (T : ratio_test row = Some m0).
      { unfold row, ratio_test. fold above. now rewrite Habove. }
      rewrite T in Hex. discriminate.
    + intros Habove before' after'.
      rewrite filter_unique_app. cbn [filter_unique]. now rewrite (Hnone Habove).
Qed.

Lemma gather_points_length (sk rk : list KeyPoint) (unique_matches : list DMatch)
    (sp rp : list Point2f) :
  gather_points sk rk unique_matches = Some (sp, rp) ->
  length sp = length unique_matches /\ length rp = length unique_matches.
Proof.
  revert sp rp. induction unique_matches as [|m rest IH]; intros sp rp; simpl.
  - intros [= <- <-]. split; reflexivity.
  - destruct (vec_at sk (queryIdx m)) as [s|]; simpl; [|discriminate].
    destruct (vec_at rk (trainIdx m)) as [r|]; simpl; [|discriminate].
    destruct (gather_points sk rk rest) as [[sp' rp']|]; simpl; [|discriminate].
    intros [= <- <-]. destruct (IH sp' rp' eq_refl) as [Hs Hr].
    simpl. rewrite Hs, Hr. split; reflexivity.
Qed.

(** A mask of zeros marks every candidate an outlier. *)
Lemma pack_matches_zero_mask (unique_matches : list DMatch) (n i : nat) :
  i + length unique_matches <= n ->
  pack_matches unique_matches (replicate n 0%Z) i = Some [].
Proof.
  revert i. induction unique_matches as [|m rest IH]; intros i Hn; simpl in *; [reflexivity|].
  rewrite lookup_replicate_2 by lia. simpl.
  rewrite IH by lia. reflexivity.
Qed.

(** C5: when fewer than 4 rows survive the ratio test, [match] returns the
    identity transform and no match, and the only library call it has made
    is [knnMatch]: the homography estimator is not called. *)
Theorem match_few_survivors (this : ResultMatcher) (source : Results) :
  length (filter_unique (knnMatch (matcher_ this) (descriptors source) 2)) < 4 ->
  match_ this source = ([EvKnnMatch], Returned (Matx33f_eye, [])) /\
  forall n, EvFindHomography n ∉ (match_ this source).1.
Proof.
  intros Hlt.
  assert (E : match_ this source = ([EvKnnMatch], Returned (Matx33f_eye, []))).
  { unfold match_. apply Nat.ltb_lt in Hlt. now rewrite Hlt. }
  split; [exact E|].
  intros n. rewrite E. simpl. rewrite list_elem_of_singleton. discriminate.
Qed.

(** C4: with at least 4 ratio-surviving correspondences, when the
    homography estimator finds no model, [match] handles the failure
    itself: it logs the event and returns, with the identity transform and
    no match. *)
Theorem match_estimator_failure (this : ResultMatcher) (source : Results)
    (source_points reference_points : list Point2f) :
  let unique_matches := filter_unique (knnMatch (matcher_ this) (descriptors source) 2) in
  4 <= length unique_matches ->
  gather_points (keypoints source) (keypoints (reference_ this)) unique_matches
  = Some (source_points, reference_points) ->
  findHomography source_points reference_points RANSAC (dbl 5 0) = NoModel ->
  match_ this source
  = ([EvKnnMatch; EvFindHomography (length unique_matches); EvRosInfo],
     Returned (Matx33f_eye, [])).
Proof.
  intros unique_matches Hge Hpts Hfail.
  unfold match_. fold unique_matches.
  destruct (length unique_matches <? 4) eqn:Hlt; [apply Nat.ltb_lt in Hlt; lia|].
  rewrite Hpts, Hfail.
  destruct (gather_points_length _ _ _ _ _ Hpts) as [Hsp _].
  rewrite Hsp. unfold vector_resize. rewrite take_nil. cbn [app length].
  rewrite Nat.sub_0_r, pack_matches_zero_mask by lia. reflexivity.
Qed.

End matcher_facts.

(** C5 on three query rows. *)
Lemma match_few_survivors_witness :
  length (filter_unique (knnMatch (matcher_ square_matcher) (descriptors triangle_results) 2)) < 4
  /\ @match_ all_inliers square_matcher triangle_results
     = ([EvKnnMatch], Returned (Matx33f_eye, [])).
Proof.
  assert (Hlt : length (filter_unique
                  (knnMatch (matcher_ square_matcher) (descriptors triangle_results) 2)) < 4).
  { vm_compute. lia. }
  split; [exact Hlt|].
  exact (proj1 (@match_few_survivors all_inliers square_matcher triangle_results Hlt)).
Defined.

(** C4 on four query rows and an estimator without a model. *)
Lemma match_estimator_failure_witness :
  @match_ no_model square_matcher square_results
  = ([EvKnnMatch; EvFindHomography 4; EvRosInfo], Returned (Matx33f_eye, [])).
Proof.
  refine (@match_estimator_failure no_model square_matcher square_results
            (map pt square_keypoints) (map pt square_keypoints) _ _ _).
  - vm_compute. lia.
  - vm_compute. reflexivity.
  - reflexivity.
Defined.

(** C1, amended, on the row with distances 3 and 4. *)
Lemma ratio_boundary_row_is_kept_witness :
  filter_unique [boundary_row] = [boundary_nearest] /\
  ~ excluded_by_ratio_test boundary_row.
Proof.
  destruct (ratio_boundary_row_is_kept [] [] boundary_nearest boundary_second [])
    as (Hkept & _ & _ & Hexcluded).
  split.
  - apply Hkept. vm_compute. reflexivity.
  - intros Hex. apply Hexcluded in Hex. vm_compute in Hex. discriminate.
Defined.

(* ===================================================================== *)
(** * Properties of the parallel tasks *)
(* ===================================================================== *)

Section slot_tasks.
Context {A B : Type}.
Implicit Types (fs : list (option (A -> outcome (A * B)))) (a ra : list A) (b rb : list B).

Lemma vector_resize_length {X : Type} (v : list X) (n : nat) (x : X) :
  length (vector_resize v n x) = n.
Proof. unfold vector_resize. rewrite length_app, length_take, length_replicate. lia. Qed.

Lemma vector_resize_lookup {X : Type} (v : list X) (n : nat) (x : X) (i : nat) :
  i < n -> vector_resize v n x !! i = Some (default x (v !! i)).
Proof.
  intros Hi. unfold vector_resize.
  destruct (decide (i < length v)) as [Hlt|Hge].
  - rewrite lookup_app_l by (rewrite length_take; lia).
    rewrite lookup_take_lt by lia.
    destruct (lookup_lt_is_Some_2 v i Hlt) as [y ->]. reflexivity.
  - rewrite lookup_app_r by (rewrite length_take; lia).
    rewrite lookup_replicate_2 by (rewrite length_take; lia).
    rewrite lookup_ge_None_2 by lia. reflexivity.
Qed.

(** A vector that is long enough is only cut by [resize]. *)
Lemma vector_resize_long {X : Type} (v : list X) (n : nat) (x : X) :
  n <= length v -> vector_resize v n x = take n v.
Proof.
  intros Hn. unfold vector_resize.
  replace (n - length v) with 0 by lia. apply app_nil_r.
Qed.

Lemma schedule_NoDup (n : nat) (sched : list nat) : schedule n sched -> NoDup sched.
Proof. intros Hs. unfold schedule in Hs. rewrite Hs. apply NoDup_seq. Qed.

Lemma schedule_elem (n : nat) (sched : list nat) (i : nat) :
  schedule n sched -> i ∈ sched <-> i < n.
Proof.
  intros Hs. unfold schedule in Hs. rewrite Hs, elem_of_seq. lia.
Qed.

(** Running slot tasks in an order without repetition: the slots named in
    the order hold what their own worker returned, the others are as
    before. *)
Lemma run_slot_tasks_order fs ra rb : forall (sched : list nat) a b,
  NoDup sched ->
  length a = length fs -> length b = length fs ->
  (forall i, i ∈ sched ->
     match fs !! i with
     | Some (Some f) =>
         exists x x' y', a !! i = Some x /\ f x = Returned (x', y') /\
                         ra !! i = Some x' /\ rb !! i = Some y'
     | Some None => ra !! i = a !! i /\ rb !! i = b !! i
     | None => False
     end) ->
  (forall i, i ∉ sched -> ra !! i = a !! i /\ rb !! i = b !! i) ->
  run_tasks (slot_tasks fs) sched (a, b) = Returned (ra, rb).
Proof.
  induction sched as [|i rest IH]; intros a b Hnd Ha Hb Hin Hout.
  - simpl. f_equal. f_equal; apply list_eq; intros j;
      destruct (Hout j (not_elem_of_nil j)) as [Hj1 Hj2]; congruence.
  - apply NoDup_cons in Hnd as [Hi Hnd].
    pose proof (Hin i (list_elem_of_here i rest)) as Hhere.
    cbn [run_tasks]. unfold slot_tasks at 1. rewrite list_lookup_imap.
    destruct (fs !! i) as [[f|]|] eqn:Hf; [| |contradiction]; cbn [fmap option_fmap option_map].
    + destruct Hhere as (x & x' & y' & Hx & Hfx & Hra & Hrb).
      unfold slot_task at 1. rewrite Hx. cbn [defined obind]. rewrite Hfx. cbn [obind].
      assert (Hlt : i < length fs) by (apply lookup_lt_is_Some; eauto).
      apply IH; [exact Hnd|rewrite length_insert; exact Ha|rewrite length_insert; exact Hb| |].
      * intros j Hj. assert (Hne : i <> j) by (intros ->; contradiction).
        specialize (Hin j (list_elem_of_further _ _ _ Hj)).
        rewrite !list_lookup_insert_ne by exact Hne. exact Hin.
      * intros j Hj. destruct (decide (j = i)) as [->|Hne].
        -- rewrite !list_lookup_insert_eq by lia. split; assumption.
        -- rewrite !list_lookup_insert_ne by congruence.
           apply Hout. rewrite elem_of_cons. tauto.
    + apply IH; [exact Hnd|exact Ha|exact Hb| |].
      * intros j Hj. apply Hin, list_elem_of_further, Hj.
      * intros j Hj. destruct (decide (j = i)) as [->|Hne]; [exact Hhere|].
        apply Hout. rewrite elem_of_cons. tauto.
Qed.

(** Every schedule of all the tasks gives the same arrays. *)
Lemma run_slot_tasks fs ra rb (sched : list nat) a b :
  schedule (length fs) sched ->
  length a = length fs -> length b = length fs ->
  (forall i, i < length fs ->
     match fs !! i with
     | Some (Some f) =>
         exists x x' y', a !! i = Some x /\ f x = Returned (x', y') /\
                         ra !! i = Some x' /\ rb !! i = Some y'
     | _ => ra !! i = a !! i /\ rb !! i = b !! i
     end) ->
  length ra = length fs -> length rb = length fs ->
  run_tasks (slot_tasks fs) sched (a, b) = Returned (ra, rb).
Proof.
  intros Hs Ha Hb Hslots Hra Hrb.
  apply run_slot_tasks_order; [eapply schedule_NoDup, Hs|exact Ha|exact Hb| |].
  - intros i Hi. apply (schedule_elem _ _ _ Hs) in Hi.
    specialize (Hslots i Hi).
    destruct (fs !! i) as [[f|]|] eqn:Hf; [exact Hslots|exact Hslots|].
    apply lookup_ge_None in Hf. lia.
  - intros i Hi. rewrite (schedule_elem _ _ _ Hs) in Hi.
    rewrite !lookup_ge_None_2 by lia. split; reflexivity.
Qed.

(** When every worker returns or raises and one of them raises, the run
    raises, whatever the order. *)
Lemma run_slot_tasks_raised_order fs : forall (sched : list nat) a b,
  NoDup sched ->
  (forall i, i ∈ sched ->
     exists f x, fs !! i = Some (Some f) /\ a !! i = Some x /\ f x <> Undefined) ->
  (exists i f x, i ∈ sched /\ fs !! i = Some (Some f) /\ a !! i = Some x /\ f x = Raised) ->
  run_tasks (slot_tasks fs) sched (a, b) = Raised.
Proof.
  induction sched as [|i rest IH]; intros a b Hnd Hall (k & g & z & Hk & Hg & Hz & Hraised).
  - now apply not_elem_of_nil in Hk.
  - apply NoDup_cons in Hnd as [Hi Hnd].
    destruct (Hall i (list_elem_of_here i rest)) as (f & x & Hf & Hx & Hdef).
    cbn [run_tasks]. unfold slot_tasks at 1. rewrite list_lookup_imap, Hf.
    cbn [fmap option_fmap option_map]. unfold slot_task at 1.
    rewrite Hx. cbn [defined obind].
    destruct (f x) as [[x' y']| |] eqn:Hfx; cbn [obind]; [|reflexivity|contradiction].
    assert (Hne : k <> i).
    { intros ->. rewrite Hf in Hg. injection Hg as <-.
      rewrite Hx in Hz. injection Hz as <-. congruence. }
    apply IH; [exact Hnd| |].
    + intros j Hj. assert (Hji : i <> j) by (intros ->; contradiction).
      destruct (Hall j (list_elem_of_further _ _ _ Hj)) as (f' & x0 & Hf' & Hx0 & Hdef').
      exists f', x0. rewrite list_lookup_insert_ne by exact Hji. auto.
    + exists k, g, z. apply elem_of_cons in Hk as [Hk|Hk]; [contradiction|].
      rewrite list_lookup_insert_ne by congruence. auto.
Qed.

End slot_tasks.

Section parallel_match_facts.
Context `{Calib3d}.

Lemma populate_tasks_from (source : Results) (matchers : list (option ResultMatcher)) :
  forall pre : list (option (Task (list Matx * list (list DMatch)))),
  populate_tasks matchers source (length pre) (pre ++ replicate (length matchers) None)
  = pre ++ imap (fun k f => slot_task (length pre + k) <$> f)
             (map (fmap (match_worker source)) matchers).
Proof.
  induction matchers as [|m rest IH]; intros pre; [reflexivity|].
  cbn [populate_tasks length replicate map imap].
  set (t := slot_task (length pre + 0) <$> (match_worker source <$> m)).
  assert (Ht : match m with
               | Some this =>
                   <[length pre := Some (slot_task (length pre)
                                           (fun _ => (match_ this source).2))]>
                     (pre ++ None :: replicate (length rest) None)
               | None => pre ++ None :: replicate (length rest) None
               end = (pre ++ [t]) ++ replicate (length rest) None).
  { subst t. rewrite Nat.add_0_r, <- app_assoc. destruct m as [this|]; [|reflexivity].
    rewrite insert_app_r_alt by lia. rewrite Nat.sub_diag. reflexivity. }
  rewrite Ht.
  replace (S (length pre)) with (length (pre ++ [t])) by (rewrite length_app; simpl; lia).
  rewrite IH, <- app_assoc. cbn [app]. do 2 f_equal.
  apply imap_ext. intros k f _. simpl. rewrite length_app. simpl.
  replace (length pre + 1 + k) with (length pre + S k) by lia. reflexivity.
Qed.

Lemma populate_tasks_slots (source : Results) (matchers : list (option ResultMatcher)) :
  populate_tasks matchers source 0 (ParallelTasks _ (length matchers))
  = slot_tasks (map (fmap (match_worker source)) matchers).
Proof. exact (populate_tasks_from source matchers []). Qed.

(** What [parallelMatch] leaves in every slot, for every schedule. *)
Lemma parallelMatch_slots (sched : list nat) (matchers : list (option ResultMatcher))
    (source : Results) (transforms : list Matx) (matches_array : list (list DMatch)) :
  schedule (length matchers) sched ->
  (forall i m, matchers !! i = Some (Some m) -> exists r, (match_ m source).2 = Returned r) ->
  exists T M,
    parallelMatch sched matchers source transforms matches_array = Returned (T, M) /\
    length T = length matchers /\ length M = length matchers /\
    (forall i m, matchers !! i = Some (Some m) ->
       exists t ms, (match_ m source).2 = Returned (t, ms) /\
                    T !! i = Some t /\ M !! i = Some ms) /\
    (forall i, matchers !! i = Some None ->
       T !! i = Some (default Matx33f_eye (transforms !! i)) /\
       M !! i = Some (default [] (matches_array !! i))).
Proof.
  intros Hs Hret.
  set (n := length matchers).
  set (slot := fun i (om : option ResultMatcher) =>
         match om with
         | Some m => match (match_ m source).2 with
                     | Returned r => r
                     | _ => (Matx33f_eye, [])
                     end
         | None => (default Matx33f_eye (transforms !! i), default [] (matches_array !! i))
         end).
  exists (imap (fun i om => (slot i om).1) matchers), (imap (fun i om => (slot i om).2) matchers).
  assert (Hslot : forall i m, matchers !! i = Some (Some m) ->
            exists t ms, (match_ m source).2 = Returned (t, ms) /\ slot i (Some m) = (t, ms)).
  { intros i m Hm. destruct (Hret i m Hm) as [[t ms] Hr].
    exists t, ms. split; [exact Hr|]. unfold slot. now rewrite Hr. }
  split; [|split; [|split; [|split]]].
  - unfold parallelMatch. fold n. rewrite populate_tasks_slots.
    apply run_slot_tasks; rewrite ?length_map, ?length_imap, ?vector_resize_length;
      try reflexivity; [exact Hs|].
    intros i Hi. rewrite list_lookup_fmap, !list_lookup_imap.
    destruct (lookup_lt_is_Some_2 matchers i Hi) as [om Hom]. rewrite Hom.
    rewrite !vector_resize_lookup by exact Hi.
    destruct om as [m|]; cbn [fmap option_fmap option_map].
    + destruct (Hslot i m Hom) as (t & ms & Hr & Hsl).
      eexists _, t, ms. split; [reflexivity|]. split; [exact Hr|].
      rewrite Hsl. split; reflexivity.
    + split; reflexivity.
  - apply length_imap.
  - apply length_imap.
  - intros i m Hm. destruct (Hslot i m Hm) as (t & ms & Hr & Hsl).
    exists t, ms. rewrite !list_lookup_imap, Hm. cbn [fmap option_fmap option_map].
    rewrite Hsl. auto.
  - intros i Hm. rewrite !list_lookup_imap, Hm. split; reflexivity.
Qed.

(** C10: when the caller's [transforms] and [matches_array] already hold at
    least as many elements as there are matchers, the [resize] calls only
    cut them to that number, and after the call the slot of every null
    matcher holds what the caller had there, not the identity transform
    and the empty list. *)
Theorem parallelMatch_keeps_prior_contents (sched : list nat)
    (matchers : list (option ResultMatcher)) (source : Results)
    (transforms : list Matx) (matches_array : list (list DMatch)) :
  schedule (length matchers) sched ->
  length matchers <= length transforms ->
  length matchers <= length matches_array ->
  (forall i m, matchers !! i = Some (Some m) -> exists r, (match_ m source).2 = Returned r) ->
  vector_resize transforms (length matchers) Matx33f_eye = take (length matchers) transforms /\
  vector_resize matches_array (length matchers) [] = take (length matchers) matches_array /\
  exists T M,
    parallelMatch sched matchers source transforms matches_array = Returned (T, M) /\
    forall i, matchers !! i = Some None ->
      T !! i = transforms !! i /\ M !! i = matches_array !! i.
Proof.
  intros Hs HT HM Hret.
  split; [now apply vector_resize_long|]. split; [now apply vector_resize_long|].
  destruct (parallelMatch_slots sched matchers source transforms matches_array Hs Hret)
    as (T & M & Hrun & _ & _ & _ & Hnull).
  exists T, M. split; [exact Hrun|].
  intros i Hi. destruct (Hnull i Hi) as [-> ->].
  assert (Hlt : i < length matchers) by (apply lookup_lt_is_Some; eauto).
  destruct (lookup_lt_is_Some_2 transforms i ltac:(lia)) as [t ->].
  destruct (lookup_lt_is_Some_2 matches_array i ltac:(lia)) as [ms ->].
  split; reflexivity.
Qed.

End parallel_match_facts.

(** C10 on a null and a valid matcher, with vectors used before. *)
Lemma parallelMatch_keeps_prior_contents_witness :
  exists T M,
    @parallelMatch all_inliers [1; 0] null_and_square square_results
      used_transforms used_matches = Returned (T, M) /\
    T !! 0 = Some shift_transform /\ M !! 0 = Some [boundary_nearest].
Proof.
  destruct (@parallelMatch_keeps_prior_contents all_inliers [1; 0] null_and_square
              square_results used_transforms used_matches)
    as (_ & _ & T & M & Hrun & Hnull).
  - unfold schedule. simpl. apply perm_swap.
  - simpl. lia.
  - simpl. lia.
  - intros [|[|i]] m; simpl; intros [= <-]. eexists. vm_compute. reflexivity.
  - exists T, M. split; [exact Hrun|]. exact (Hnull 0 eq_refl).
Defined.

(** C8 at a null matcher whose output slots were used before: the call
    leaves the caller's transform and match list in slot 0, where the claim
    has the identity transform and an empty list; slot 1 holds what the
    valid matcher's own call produced. *)
Lemma parallelMatch_null_slot_not_reset :
  @parallelMatch all_inliers [0; 1] null_and_square square_results
    used_transforms used_matches
  = Returned ([shift_transform; Matx33f_eye], [[boundary_nearest]; diagonal_matches]) /\
  (@match_ all_inliers square_matcher square_results).2
  = Returned (Matx33f_eye, diagonal_matches) /\
  shift_transform <> Matx33f_eye.
Proof. repeat split; [vm_compute; reflexivity..|vm_compute; discriminate]. Qed.

(* ===================================================================== *)
(** * Properties of the sample plan *)
(* ===================================================================== *)

Section sample_plan_facts.
Context `{Libm}.

Lemma phi_loop_fuel (fuel : nat) : forall fuel' tilt phi params r,
  fuel <= fuel' ->
  phi_loop fuel tilt phi params = Some r -> phi_loop fuel' tilt phi params = Some r.
Proof.
  induction fuel as [|fuel IH]; intros fuel' tilt phi params r Hle; [discriminate|].
  destruct fuel' as [|fuel']; [lia|]. cbn [phi_loop].
  destruct (dlt phi (dbl 180 0)); [|trivial].
  apply IH. lia.
Qed.

Lemma tilt_loop_fuel (fuel fuel' : nat) (levels : list Z) : forall params r,
  fuel <= fuel' ->
  tilt_loop fuel levels params = Some r -> tilt_loop fuel' levels params = Some r.
Proof.
  induction levels as [|i rest IH]; intros params r Hle; [trivial|]. cbn [tilt_loop].
  destruct (phi_loop fuel _ _ params) as [params'|] eqn:Hphi; [|discriminate].
  rewrite (phi_loop_fuel _ _ _ _ _ _ Hle Hphi). cbn [mbind option_bind]. now apply IH.
Qed.

(** More fuel does not change the parameters. *)
Lemma generate_params_fuel (fuel fuel' : nat) (r : list double * list double) :
  fuel <= fuel' -> generate_params fuel = Some r -> generate_params fuel' = Some r.
Proof. apply tilt_loop_fuel. Qed.

Lemma phi_loop_lengths (fuel : nat) : forall tilt phi params r,
  phi_loop fuel tilt phi params = Some r ->
  length params.1 = length params.2 -> length r.1 = length r.2.
Proof.
  induction fuel as [|fuel IH]; intros tilt phi params r; [discriminate|]. cbn [phi_loop].
  destruct (dlt phi (dbl 180 0)).
  - intros Hr Hlen. apply (IH _ _ _ _ Hr). cbn [fst snd]. rewrite !length_app, Hlen. reflexivity.
  - intros [= <-]. trivial.
Qed.

Lemma tilt_loop_lengths (fuel : nat) (levels : list Z) : forall params r,
  tilt_loop fuel levels params = Some r ->
  length params.1 = length params.2 -> length r.1 = length r.2.
Proof.
  induction levels as [|i rest IH]; intros params r; cbn [tilt_loop].
  - intros [= <-]. trivial.
  - destruct (phi_loop fuel _ _ params) as [params'|] eqn:Hphi; [|discriminate].
    cbn [mbind option_bind].
    intros Hr Hlen. apply (IH _ _ Hr). exact (phi_loop_lengths _ _ _ _ _ Hphi Hlen).
Qed.

(** [tilt_params] and [phi_params] have one entry per sample each. *)
Lemma generate_params_lengths (fuel : nat) (r : list double * list double) :
  generate_params fuel = Some r -> length r.1 = length r.2.
Proof. intros Hr. apply (tilt_loop_lengths _ _ _ _ Hr). reflexivity. Qed.

Lemma generate_params_16 :
  correctly_rounded_pow ->
  generate_params 16 = Some (plan_of_the_spec.*1, plan_of_the_spec.*2).
Proof.
  intros Hpow. unfold generate_params. cbn [tilt_loop].
  rewrite (Hpow 1%Z), (Hpow 2%Z), (Hpow 3%Z), (Hpow 4%Z), (Hpow 5%Z) by lia.
  vm_compute. reflexivity.
Qed.

(** C6: the sample plan does not depend on the call. It is the identity
    sample (tilt 1, angle 0), then for i = 1, ..., 5 in this order the tilt
    2^(0.5 i) with the angles 0, 72/tilt, 72/tilt + 72/tilt, ... in
    increasing order: all the angles of this progression that are below
    180 degrees, and no other. *)
Theorem sample_plan_fixed :
  correctly_rounded_pow ->
  (forall fuel, 16 <= fuel -> sample_plan fuel = Some plan_of_the_spec) /\
  head plan_of_the_spec = Some (dbl 1 0, S754_zero false) /\
  forall i : Z, (1 <= i <= 5)%Z ->
    forallb (fun phi => dlt phi (dbl 180 0)) (angles_of_level i) = true /\
    dlt (angle (tilt_level i) (angle_count i)) (dbl 180 0) = false /\
    strictly_increasing (angles_of_level i) = true /\
    angles_are_multiples i = true.
Proof.
  intros Hpow. split; [|split; [reflexivity|]].
  - intros fuel Hfuel. unfold sample_plan.
    rewrite (generate_params_fuel 16 fuel _ Hfuel (generate_params_16 Hpow)).
    vm_compute. reflexivity.
  - intros i Hi.
    assert (Hcases : i = 1%Z \/ i = 2%Z \/ i = 3%Z \/ i = 4%Z \/ i = 5%Z) by lia.
    destruct Hcases as [->|[->|[->|[->| ->]]]]; vm_compute; auto.
Qed.

End sample_plan_facts.

(** C6 for the libm with the table of correctly rounded powers. *)
Lemma sample_plan_fixed_witness :
  @sample_plan table_libm 16 = Some plan_of_the_spec /\ length plan_of_the_spec = 43.
Proof.
  split; [|reflexivity].
  refine (proj1 (@sample_plan_fixed table_libm _) 16 _); [|lia].
  intros i Hi.
  assert (Hcases : i = 1%Z \/ i = 2%Z \/ i = 3%Z \/ i = 4%Z \/ i = 5%Z) by lia.
  destruct Hcases as [->|[->|[->|[->| ->]]]]; vm_compute; reflexivity.
Defined.

(* ===================================================================== *)
(** * Properties of the merge *)
(* ===================================================================== *)

Section merge_facts.

Lemma sum_rows_cons (d : Mat) (ds : list Mat) :
  sum_rows (d :: ds) = mat_rows d + sum_rows ds.
Proof. reflexivity. Qed.

Lemma copyTo_rowRange_inv (src dst : Mat) (start : nat) (dst' : Mat) :
  copyTo_rowRange src dst start = Returned dst' ->
  start + mat_rows src <= mat_rows dst /\
  mat_type dst' = mat_type dst /\ mat_cols dst' = mat_cols dst /\
  mat_rows dst' = mat_rows dst /\
  take start (mat_data dst') = take start (mat_data dst) /\
  Mat_empty src = false /\
  rows_at dst' start (mat_rows src) = mat_data src.
Proof.
  unfold copyTo_rowRange.
  destruct (start + mat_rows src <=? mat_rows dst) eqn:Hle; [|discriminate].
  apply Nat.leb_le in Hle. cbn [negb].
  destruct (Mat_empty src) eqn:Hempty; [discriminate|].
  destruct (_ && _); [|discriminate]. intros [= <-].
  unfold mat_rows, rows_at in *. cbn [mat_type mat_cols mat_data].
  assert (Hlen : length (take start (mat_data dst)) = start)
    by (rewrite length_take; lia).
  repeat split.
  - exact Hle.
  - rewrite !length_app, Hlen, length_drop. lia.
  - rewrite take_app_length' by (symmetry; exact Hlen). reflexivity.
  - rewrite drop_app_length' by (symmetry; exact Hlen).
    apply take_app_length.
Qed.

(** A matrix without elements is not copied: the call raises. *)
Lemma copyTo_rowRange_empty (src dst : Mat) (start : nat) :
  Mat_empty src = true -> copyTo_rowRange src dst start = Raised.
Proof.
  intros Hempty. unfold copyTo_rowRange. rewrite Hempty.
  now destruct (negb _).
Qed.

Lemma copyTo_rowRange_defined (src dst : Mat) (start : nat) :
  copyTo_rowRange src dst start <> Undefined.
Proof.
  unfold copyTo_rowRange.
  destruct (negb _); [discriminate|].
  destruct (Mat_empty src); [discriminate|].
  destruct (_ && _); discriminate.
Qed.

(** The copy loop returns only when every matrix has elements; it writes
    their rows at the offset given by the rows of the matrices before, and
    nothing above its first row. *)
Lemma copy_rows_inv (ds : list Mat) : forall (dst : Mat) (start : nat) (dst' : Mat),
  copy_rows ds dst start = Returned dst' ->
  mat_type dst' = mat_type dst /\ mat_cols dst' = mat_cols dst /\
  mat_rows dst' = mat_rows dst /\
  take start (mat_data dst') = take start (mat_data dst) /\
  Forall (fun d => Mat_empty d = false) ds /\
  forall pre d post, ds = pre ++ d :: post ->
    rows_at dst' (start + sum_rows pre) (mat_rows d) = mat_data d.
Proof.
  induction ds as [|d0 rest IH]; intros dst start dst'; cbn [copy_rows].
  - intros [= <-]. repeat split; [constructor|].
    intros [|? pre] d post; discriminate.
  - destruct (copyTo_rowRange d0 dst start) as [dst1| |] eqn:Hcopy; try discriminate.
    cbn [obind]. intros Hrest.
    destruct (copyTo_rowRange_inv _ _ _ _ Hcopy)
      as (Hle & Ht & Hc & Hr & Htake & Hne & Hrows).
    destruct (IH _ _ _ Hrest) as (Ht' & Hc' & Hr' & Htake' & Hall & Hat).
    assert (Hhead : take start (mat_data dst') = take start (mat_data dst1)).
    { rewrite <- (Nat.min_l start (start + mat_rows d0)) by lia.
      rewrite <- !take_take, Htake'. reflexivity. }
    repeat split; try congruence; [constructor; assumption|].
    intros [|d1 pre] d post Heq.
    + injection Heq as <- <-. change (sum_rows []) with 0. rewrite Nat.add_0_r.
      rewrite <- Hrows. unfold rows_at.
      rewrite !take_drop_commute, Htake'. reflexivity.
    + injection Heq as <- ->.
      rewrite sum_rows_cons, Nat.add_assoc.
      now apply (Hat pre d post).
Qed.

(** The copy loop returns when the matrices have elements and the shape of
    the destination, and their rows fit. *)
Lemma copy_rows_returns (ds : list Mat) : forall (dst : Mat) (start : nat),
  Forall (fun d => Mat_empty d = false /\
                   mat_cols d = mat_cols dst /\ mat_type d = mat_type dst) ds ->
  start + sum_rows ds <= mat_rows dst ->
  exists dst', copy_rows ds dst start = Returned dst'.
Proof.
  induction ds as [|d0 rest IH]; intros dst start Hshape Hfit; cbn [copy_rows].
  - eexists. reflexivity.
  - rewrite sum_rows_cons in Hfit.
    apply Forall_cons in Hshape as [(Hne & Hc0 & Ht0) Hshape].
    assert (Hcopy : exists dst1, copyTo_rowRange d0 dst start = Returned dst1).
    { unfold copyTo_rowRange.
      destruct (start + mat_rows d0 <=? mat_rows dst) eqn:Hle;
        [|apply Nat.leb_gt in Hle; lia].
      cbn [negb]. rewrite Hne, Hc0, Ht0, Nat.eqb_refl, Z.eqb_refl.
      eexists. reflexivity. }
    destruct Hcopy as [dst1 Hcopy]. rewrite Hcopy. cbn [obind].
    destruct (copyTo_rowRange_inv _ _ _ _ Hcopy) as (_ & Ht & Hc & Hr & _).
    apply IH.
    + eapply Forall_impl; [exact Hshape|]. cbn beta. intros d. rewrite Ht, Hc. tauto.
    + rewrite Hr. lia.
Qed.

(** One matrix without elements makes the copy loop raise. *)
Lemma copy_rows_raised (ds : list Mat) : forall (dst : Mat) (start : nat),
  Exists (fun d => Mat_empty d = true) ds -> copy_rows ds dst start = Raised.
Proof.
  induction ds as [|d0 rest IH]; intros dst start Hex; [now apply Exists_nil in Hex|].
  cbn [copy_rows].
  destruct (Mat_empty d0) eqn:Hd0.
  - now rewrite copyTo_rowRange_empty.
  - apply Exists_cons in Hex as [Hex|Hex]; [congruence|].
    pose proof (copyTo_rowRange_defined d0 dst start) as Hdef.
    destruct (copyTo_rowRange d0 dst start) as [dst1| |]; cbn [obind];
      [now apply IH|reflexivity|contradiction].
Qed.

Lemma Mat_create_shape (m : Mat) (rows cols : nat) (type : Z) :
  mat_rows (Mat_create m rows cols type) = rows /\
  mat_cols (Mat_create m rows cols type) = cols /\
  mat_type (Mat_create m rows cols type) = type.
Proof.
  unfold Mat_create.
  destruct (_ && _) eqn:Hsame.
  - apply andb_true_iff in Hsame as [Hsame Ht]. apply andb_true_iff in Hsame as [Hr Hc].
    apply Nat.eqb_eq in Hr, Hc. apply Z.eqb_eq in Ht. auto.
  - unfold mat_rows. cbn [mat_data mat_cols mat_type]. rewrite length_replicate. auto.
Qed.

Lemma well_formed_rows (outputs : list (list KeyPoint * Mat)) :
  (forall o, o ∈ outputs -> mat_rows o.2 = length o.1) ->
  sum_rows (outputs.*2) = length (concat (outputs.*1)).
Proof.
  induction outputs as [|o rest IH]; intros Hrows; [reflexivity|].
  cbn [fmap list_fmap concat]. rewrite sum_rows_cons, length_app.
  rewrite (Hrows o (list_elem_of_here _ _)).
  rewrite IH by (intros o' Ho'; apply Hrows; now apply list_elem_of_further).
  reflexivity.
Qed.

(** Rows that hold the rows of every matrix at its offset, and nothing
    more, are the rows of the matrices one after the other. *)
Lemma rows_concat (ds : list Mat) : forall (rows : list (list Z)),
  length rows = sum_rows ds ->
  (forall pre d post, ds = pre ++ d :: post ->
     take (mat_rows d) (drop (sum_rows pre) rows) = mat_data d) ->
  rows = concat (mat_data <$> ds).
Proof.
  induction ds as [|d rest IH]; intros rows Hlen Hat.
  - now apply nil_length_inv.
  - rewrite sum_rows_cons in Hlen. cbn [fmap list_fmap concat].
    rewrite <- (take_drop (mat_rows d) rows). f_equal.
    + exact (Hat [] d rest eq_refl).
    + apply IH; [rewrite length_drop; lia|].
      intros pre d' post ->. rewrite drop_drop.
      exact (Hat (d :: pre) d' post eq_refl).
Qed.

Lemma find_nonempty_none (ds : list Mat) :
  find (fun d => negb (Mat_empty d)) ds = None -> Forall (fun d => Mat_empty d = true) ds.
Proof.
  intros Hfind. apply Forall_forall. intros d Hd. apply list_elem_of_In in Hd.
  apply (find_none _ _ Hfind) in Hd. now apply negb_false_iff in Hd.
Qed.

(** What the merge returns, when it returns: the keypoints of the samples
    one after the other; every sample has descriptors, and their rows lie
    at the offset given by the rows of the samples before; the matrix has
    a row per keypoint. *)
Lemma merge_returned (keypoints_array : list (list KeyPoint)) (descriptors_array : list Mat)
    (keypoints : list KeyPoint) (descriptors : Mat) (kps : list KeyPoint) (D : Mat) :
  merge keypoints_array descriptors_array keypoints descriptors = Returned (kps, D) ->
  kps = concat keypoints_array /\
  Forall (fun d => Mat_empty d = false) descriptors_array /\
  (descriptors_array <> [] -> mat_rows D = length kps) /\
  forall pre d post, descriptors_array = pre ++ d :: post ->
    rows_at D (sum_rows pre) (mat_rows d) = mat_data d.
Proof.
  unfold merge. cbn [app].
  destruct (copy_rows _ _ 0) as [D'| |] eqn:Hcopy; try discriminate.
  cbn [obind]. intros [= <- <-]. split; [reflexivity|].
  destruct (copy_rows_inv _ _ _ _ Hcopy) as (_ & _ & Hr & _ & Hall & Hat).
  split; [exact Hall|]. split; [|exact Hat].
  intros Hne. rewrite Hr.
  destruct descriptors_array as [|d0 rest]; [contradiction|].
  apply Forall_cons in Hall as [Hd0 _].
  cbn [find]. rewrite Hd0. cbn [negb]. apply Mat_create_shape.
Qed.

(** When no sample has descriptors the merge raises. *)
Lemma merge_all_empty (keypoints_array : list (list KeyPoint)) (descriptors_array : list Mat)
    (keypoints : list KeyPoint) (descriptors : Mat) :
  descriptors_array <> [] ->
  Forall (fun d => Mat_empty d = true) descriptors_array ->
  merge keypoints_array descriptors_array keypoints descriptors = Raised.
Proof.
  intros Hne Hall. unfold merge.
  rewrite copy_rows_raised; [reflexivity|].
  destruct descriptors_array as [|d0 rest]; [contradiction|].
  apply Forall_cons in Hall as [Hd0 _]. now apply Exists_cons_hd.
Qed.

(** The merge of well-formed outputs that all have descriptors returns the
    keypoints and the rows of the samples one after the other. *)
Lemma merge_well_formed (outputs : list (list KeyPoint * Mat))
    (keypoints : list KeyPoint) (descriptors : Mat) :
  outputs <> [] ->
  well_formed_outputs outputs ->
  Forall (fun o => Mat_empty o.2 = false) outputs ->
  exists D,
    merge (outputs.*1) (outputs.*2) keypoints descriptors
    = Returned (concat (outputs.*1), D) /\
    mat_rows D = length (concat (outputs.*1)) /\
    mat_data D = concat (mat_data <$> outputs.*2).
Proof.
  intros Hne [Hrows Hshape] Hall. unfold merge. cbn [app].
  pose proof (well_formed_rows outputs (fun o Ho => proj1 (Hrows o Ho))) as Hsum.
  destruct outputs as [|o0 rest] eqn:Houtputs; [contradiction|]. rewrite <- Houtputs in *.
  assert (Ho0 : o0 ∈ outputs) by (rewrite Houtputs; apply list_elem_of_here).
  assert (Hfind : find (fun d => negb (Mat_empty d)) (outputs.*2) = Some o0.2).
  { rewrite Houtputs. cbn [fmap list_fmap find].
    rewrite Houtputs in Hall. apply Forall_cons in Hall as [-> _]. reflexivity. }
  rewrite Hfind.
  set (D1 := Mat_create descriptors (length (concat (outputs.*1))) (mat_cols o0.2)
               (mat_type o0.2)).
  destruct (Mat_create_shape descriptors (length (concat (outputs.*1))) (mat_cols o0.2)
              (mat_type o0.2)) as (Hr1 & Hc1 & Ht1). fold D1 in Hr1, Hc1, Ht1.
  destruct (copy_rows_returns (outputs.*2) D1 0) as [D HD].
  { apply Forall_fmap. apply Forall_forall. intros o Ho. cbn.
    rewrite Forall_forall in Hall. pose proof (Hall o Ho) as Hone.
    rewrite Hc1, Ht1. split; [exact Hone|].
    apply Hshape; [exact Ho|exact Ho0|exact Hone|exact (Hall o0 Ho0)]. }
  { rewrite Hr1, Hsum. lia. }
  exists D. rewrite HD. cbn [obind]. split; [reflexivity|].
  destruct (copy_rows_inv _ _ _ _ HD) as (_ & _ & Hr & _ & _ & Hat).
  split; [congruence|].
  apply rows_concat; [fold (mat_rows D); congruence|].
  intros pre d post Hsplit. exact (Hat pre d post Hsplit).
Qed.

End merge_facts.

(* ===================================================================== *)
(** * Properties of the detector *)
(* ===================================================================== *)

Section outcome_facts.

Lemma checked_defined {A : Type} (o : option A) : checked o <> Undefined.
Proof. now destruct o. Qed.

Lemma obind_defined {A B : Type} (o : outcome A) (k : A -> outcome B) :
  o <> Undefined -> (forall a, k a <> Undefined) -> obind o k <> Undefined.
Proof. intros Ho Hk. destruct o; [apply Hk|discriminate|contradiction]. Qed.

Lemma gather_returned {X : Type} (xs : list X) : gather (Returned <$> xs) = Returned xs.
Proof.
  induction xs as [|x xs IH]; [reflexivity|].
  cbn [fmap list_fmap gather obind]. fold (Returned <$> xs). now rewrite IH.
Qed.

Lemma gather_inv {X : Type} (calls : list (outcome X)) : forall xs,
  gather calls = Returned xs -> calls = Returned <$> xs.
Proof.
  induction calls as [|call rest IH]; intros xs; cbn [gather].
  - now intros [= <-].
  - destruct call as [x| |]; try discriminate. cbn [obind].
    destruct (gather rest) as [ys| |]; try discriminate. cbn [obind].
    intros [= <-]. cbn [fmap list_fmap]. f_equal. now apply IH.
Qed.

(** Calls that return or raise: all of them return, or one raises and so
    does the whole. *)
Lemma gather_cases {X : Type} (calls : list (outcome X)) :
  Forall (fun call => call <> Undefined) calls ->
  (exists xs, calls = Returned <$> xs) \/
  (Exists (fun call => call = Raised) calls /\ gather calls = Raised).
Proof.
  induction 1 as [|call rest Hcall _ IH].
  - left. now exists [].
  - destruct call as [x| |]; [| |contradiction].
    + destruct IH as [[xs ->]|[Hex Hraised]].
      * left. now exists (x :: xs).
      * right. split; [now apply Exists_cons_tl|]. cbn [gather obind]. now rewrite Hraised.
    + right. split; [now apply Exists_cons_hd|reflexivity].
Qed.

End outcome_facts.

Section plan_length.
Context `{Libm}.

Lemma phi_loop_grows (fuel : nat) : forall tilt phi params r,
  phi_loop fuel tilt phi params = Some r -> length params.1 <= length r.1.
Proof.
  induction fuel as [|fuel IH]; intros tilt phi params r; [discriminate|]. cbn [phi_loop].
  destruct (dlt phi (dbl 180 0)).
  - intros Hr. apply IH in Hr. cbn [fst] in Hr. rewrite length_app in Hr. lia.
  - now intros [= <-].
Qed.

Lemma tilt_loop_grows (fuel : nat) (levels : list Z) : forall params r,
  tilt_loop fuel levels params = Some r -> length params.1 <= length r.1.
Proof.
  induction levels as [|i rest IH]; intros params r; cbn [tilt_loop].
  - now intros [= <-].
  - destruct (phi_loop fuel _ _ params) as [params'|] eqn:Hphi; [|discriminate].
    cbn [mbind option_bind]. intros Hr.
    apply phi_loop_grows in Hphi. apply IH in Hr. lia.
Qed.

(** The plan holds the identity sample at least. *)
Lemma generate_params_nonempty (fuel : nat) (params : list double * list double) :
  generate_params fuel = Some params -> 1 <= length params.1.
Proof. intros Hp. apply tilt_loop_grows in Hp. exact Hp. Qed.

End plan_length.

Section detector_facts.
Context `{ImgProc}.

Lemma detectAndComputeImpl_feature (this : AffineInvariantFeature) (base_feature : Feature2D)
    (src_image src_mask : Mat) (keypoints : list KeyPoint) (tilt phi : double) (flag : bool) :
  base_feature_ this = Some base_feature ->
  detectAndComputeImpl this src_image src_mask keypoints tilt phi flag
  = detectAndComputeImpl (feature_of base_feature) src_image src_mask keypoints tilt phi flag.
Proof. intros Hb. unfold detectAndComputeImpl, feature_of. cbn [base_feature_]. now rewrite Hb. Qed.

Lemma rotate_image_defined (image : Mat) (affine : Matx) (phi : double) :
  rotate_image image affine phi <> Undefined.
Proof.
  unfold rotate_image. destruct (dne phi _); [|discriminate].
  apply obind_defined; [apply checked_defined|intros rotation].
  apply obind_defined; [unfold Matx_of_Mat; destruct (_ && _); discriminate|intros affine'].
  apply obind_defined; [apply checked_defined|intros tmp_corners].
  apply obind_defined; [apply checked_defined|intros tmp_rect].
  apply obind_defined; [apply checked_defined|intros image']. discriminate.
Qed.

Lemma tilt_image_defined (image : Mat) (affine : Matx) (tilt : double) :
  tilt_image image affine tilt <> Undefined.
Proof.
  unfold tilt_image. destruct (dne tilt _); [|discriminate].
  apply obind_defined; [apply checked_defined|intros image1].
  apply obind_defined; [apply checked_defined|intros image2]. discriminate.
Qed.

Lemma warp_mask_defined (src_image src_mask image : Mat) (affine : Matx) (tilt phi : double) :
  warp_mask src_image src_mask image affine tilt phi <> Undefined.
Proof.
  unfold warp_mask. destruct (_ || _); [apply checked_defined|discriminate].
Qed.

Lemma prepare_sample_defined (src_image src_mask : Mat) (tilt phi : double) :
  prepare_sample src_image src_mask tilt phi <> Undefined.
Proof.
  unfold prepare_sample.
  apply obind_defined; [apply rotate_image_defined|intros [image affine]].
  apply obind_defined; [apply tilt_image_defined|intros [image' affine']].
  apply obind_defined; [apply warp_mask_defined|intros mask]. discriminate.
Qed.

Lemma invert_loop_defined (invert_affine : Matx) (keypoints : list KeyPoint) :
  invert_loop invert_affine keypoints <> Undefined.
Proof.
  induction keypoints as [|keypoint rest IH]; cbn [invert_loop]; [discriminate|].
  apply obind_defined; [apply checked_defined|intros pt'].
  apply obind_defined; [exact IH|intros rest']. discriminate.
Qed.

Lemma invert_keypoints_defined (affine : Matx) (keypoints : list KeyPoint) :
  invert_keypoints affine keypoints <> Undefined.
Proof.
  unfold invert_keypoints.
  apply obind_defined; [apply checked_defined|intros invert_affine].
  apply invert_loop_defined.
Qed.

(** A sample task returns or raises. *)
Lemma detectAndComputeImpl_defined (this : AffineInvariantFeature)
    (src_image src_mask : Mat) (keypoints : list KeyPoint) (tilt phi : double) (flag : bool) :
  (detectAndComputeImpl this src_image src_mask keypoints tilt phi flag).2 <> Undefined.
Proof.
  unfold detectAndComputeImpl. destruct (base_feature_ this) as [base_feature|]; [|discriminate].
  pose proof (prepare_sample_defined src_image src_mask tilt phi) as Hprepared.
  destruct (prepare_sample src_image src_mask tilt phi) as [[[image affine] mask]| |];
    [|discriminate|contradiction].
  cbn [snd].
  apply obind_defined; [apply checked_defined|intros [kps descriptors]].
  apply obind_defined; [apply invert_keypoints_defined|intros kps']. discriminate.
Qed.

(** Every call of the backend a sample task makes carries the flag and the
    keypoints the task was given. *)
Lemma detectAndComputeImpl_calls (this : AffineInvariantFeature)
    (src_image src_mask : Mat) (keypoints : list KeyPoint) (tilt phi : double) (flag : bool)
    (call : BackendCall) :
  call ∈ (detectAndComputeImpl this src_image src_mask keypoints tilt phi flag).1 ->
  call_useProvidedKeypoints call = flag /\ call_keypoints call = keypoints.
Proof.
  unfold detectAndComputeImpl. destruct (base_feature_ this) as [base_feature|];
    [|intros Hin; now apply not_elem_of_nil in Hin].
  destruct (prepare_sample src_image src_mask tilt phi) as [[[image affine] mask]| |];
    cbn [fst]; intros Hin; try (now apply not_elem_of_nil in Hin).
  apply list_elem_of_singleton in Hin as ->. split; reflexivity.
Qed.

(** The identity sample: no routine of the library is called before the
    backend, which gets the source image and the mask. *)
Lemma prepare_sample_identity (src_image src_mask : Mat) :
  prepare_sample src_image src_mask (dbl 1 0) (S754_zero false)
  = Returned (src_image, Matx32f_eye, identity_sample_mask src_image src_mask).
Proof. reflexivity. Qed.

Lemma detectAndComputeImpl_identity (this : AffineInvariantFeature) (base_feature : Feature2D)
    (src_image src_mask : Mat) (keypoints : list KeyPoint) (flag : bool) :
  base_feature_ this = Some base_feature ->
  detectAndComputeImpl this src_image src_mask keypoints (dbl 1 0) (S754_zero false) flag
  = ([mkBackendCall src_image (identity_sample_mask src_image src_mask) keypoints flag],
     do (kps, descriptors) <-
       checked (backend_detectAndCompute base_feature src_image
                  (identity_sample_mask src_image src_mask) keypoints flag);
     do kps' <- invert_keypoints Matx32f_eye kps;
     Returned (kps', descriptors)).
Proof.
  intros Hb. unfold detectAndComputeImpl. rewrite Hb, prepare_sample_identity. reflexivity.
Qed.

Lemma tilt_image_shape (image : Mat) (affine : Matx) (tilt : double) (image' : Mat)
    (affine' : Matx) :
  tilt_image image affine tilt = Returned (image', affine') ->
  mx_rows affine' = mx_rows affine /\ mx_cols affine' = mx_cols affine.
Proof.
  unfold tilt_image. destruct (dne tilt _); [|now intros [= <- <-]].
  destruct (GaussianBlur _ _ _ _) as [image1|]; [|discriminate]. cbn [checked obind].
  destruct (resize _ _ _ _ _) as [image2|]; [|discriminate]. cbn [checked obind].
  intros [= <- <-]. split; reflexivity.
Qed.

(** With a library that asserts the shape of the maps, a rotation raises:
    in the conversion of a 2x3 rotation to the 3x2 [affine], or in
    [cv::warpAffine] on the 3x2 [affine]. *)
Lemma rotate_image_raises (image : Mat) (affine : Matx) (phi : double) :
  asserts_affine_shape ->
  dne phi (S754_zero false) = true ->
  rotate_image image affine phi = Raised.
Proof.
  intros [Hwarp _] Hphi. unfold rotate_image. rewrite Hphi.
  destruct (getRotationMatrix2D _ _ _) as [rotation|]; [|reflexivity]. cbn [checked obind].
  unfold Matx_of_Mat. destruct (_ && _) eqn:Hshape; [|reflexivity]. cbn [obind].
  apply andb_true_iff in Hshape as [Hrows Hcols]. apply Nat.eqb_eq in Hrows.
  destruct (transform_points _ _) as [tmp_corners|]; [|reflexivity]. cbn [checked obind].
  destruct (boundingRect _) as [tmp_rect|]; [|reflexivity]. cbn [checked obind].
  rewrite Hwarp; [reflexivity|].
  unfold affine_shape. cbn [Matx_set mx_rows]. now rewrite Hrows.
Qed.

(** With such a library every sample task raises. *)
Lemma detectAndComputeImpl_raises (this : AffineInvariantFeature)
    (src_image src_mask : Mat) (keypoints : list KeyPoint) (tilt phi : double) (flag : bool) :
  asserts_affine_shape ->
  (detectAndComputeImpl this src_image src_mask keypoints tilt phi flag).2 = Raised.
Proof.
  intros Hassert. pose proof Hassert as [Hwarp Hinvert].
  unfold detectAndComputeImpl. destruct (base_feature_ this) as [base_feature|]; [|reflexivity].
  unfold prepare_sample.
  destruct (dne phi (S754_zero false)) eqn:Hphi.
  { rewrite (rotate_image_raises _ _ _ Hassert Hphi). reflexivity. }
  unfold rotate_image at 1. rewrite Hphi. cbn [obind].
  destruct (tilt_image src_image Matx32f_eye tilt) as [[image affine]| |] eqn:Htilt;
    [|reflexivity|now destruct (tilt_image_defined src_image Matx32f_eye tilt)].
  cbn [obind].
  destruct (tilt_image_shape _ _ _ _ _ Htilt) as [Hrows Hcols].
  assert (Hshape : affine_shape affine = false).
  { unfold affine_shape. rewrite Hrows. reflexivity. }
  unfold warp_mask. rewrite Hphi. cbn [orb].
  destruct (dne tilt (dbl 1 0)) eqn:Htilt1.
  { rewrite Hwarp by exact Hshape. reflexivity. }
  cbn [obind snd].
  destruct (backend_detectAndCompute _ _ _ _ _) as [[kps descriptors]|]; [|reflexivity].
  cbn [checked obind]. unfold invert_keypoints. rewrite Hinvert by exact Hshape. reflexivity.
Qed.

Lemma bind_tasks_indices (this : AffineInvariantFeature) (image mask : Mat)
    (tilt_params phi_params : list double) (flag : bool) (indices : list nat) :
  (forall i, i ∈ indices -> i < length tilt_params /\ i < length phi_params) ->
  bind_tasks this image mask tilt_params phi_params flag indices
  = Some ((fun i => Some (slot_task i (sample_worker this image mask tilt_params phi_params
                                         flag i))) <$> indices).
Proof.
  induction indices as [|i rest IH]; intros Hin; [reflexivity|]. cbn [bind_tasks].
  destruct (Hin i (list_elem_of_here _ _)) as [Ht Hp].
  destruct (lookup_lt_is_Some_2 _ _ Ht) as [tilt Htilt].
  destruct (lookup_lt_is_Some_2 _ _ Hp) as [phi Hphi].
  assert (Hw : sample_worker this image mask tilt_params phi_params flag i
               = fun keypoints =>
                   snd (detectAndComputeImpl this image mask keypoints tilt phi flag)).
  { unfold sample_worker. rewrite Htilt, Hphi. reflexivity. }
  rewrite Htilt, Hphi. cbn [mbind option_bind].
  rewrite IH by (intros j Hj; apply Hin; now apply list_elem_of_further).
  cbn [mbind option_bind fmap list_fmap]. rewrite Hw. reflexivity.
Qed.

Lemma slot_tasks_seq {A B : Type} (w : nat -> A -> outcome (A * B)) (n : nat) :
  (fun i => Some (slot_task i (w i))) <$> seq 0 n
  = slot_tasks ((fun i => Some (w i)) <$> seq 0 n).
Proof.
  apply list_eq. intros i. unfold slot_tasks.
  rewrite list_lookup_imap, !list_lookup_fmap.
  destruct (decide (i < n)) as [Hlt|Hge].
  - rewrite lookup_seq_lt by exact Hlt. reflexivity.
  - rewrite lookup_seq_ge by lia. reflexivity.
Qed.

Lemma fmap_seq_zip {C : Type} (g : double * double -> C) (tilt_params phi_params : list double) :
  length tilt_params = length phi_params ->
  (fun i => g (default S754_nan (tilt_params !! i), default S754_nan (phi_params !! i)))
    <$> seq 0 (length tilt_params)
  = g <$> zip tilt_params phi_params.
Proof.
  intros Hlen. apply list_eq. intros i. rewrite !list_lookup_fmap, lookup_zip_with.
  destruct (decide (i < length tilt_params)) as [Hlt|Hge].
  - rewrite lookup_seq_lt by exact Hlt. cbn [fmap option_fmap option_map Nat.add].
    destruct (lookup_lt_is_Some_2 tilt_params i Hlt) as [tilt ->].
    destruct (lookup_lt_is_Some_2 phi_params i ltac:(lia)) as [phi ->]. reflexivity.
  - rewrite lookup_seq_ge by lia. rewrite (lookup_ge_None_2 tilt_params) by lia. reflexivity.
Qed.

(** Whatever the order in which the tasks run: when every task returns,
    the arrays handed to the merge hold the outputs of the samples in the
    order of the plan; when a task raises, the call raises. *)
Lemma detect_samples_gather (this : AffineInvariantFeature) (base_feature : Feature2D)
    (tilt_params phi_params : list double) (sched : list nat) (image mask : Mat)
    (keypoints : list KeyPoint) (descriptors : Mat) (flag : bool) :
  base_feature_ this = Some base_feature ->
  length tilt_params = length phi_params ->
  schedule (length tilt_params) sched ->
  detect_samples this tilt_params phi_params sched image mask keypoints descriptors flag
  = do outputs <-
      gather (sample_outputs base_feature image mask flag (zip tilt_params phi_params));
    merge (outputs.*1) (outputs.*2) keypoints descriptors.
Proof.
  intros Hb Hlen Hs. unfold detect_samples.
  set (n := length tilt_params) in *.
  rewrite bind_tasks_indices
    by (intros i Hi; apply elem_of_seq in Hi; lia).
  cbn [defined obind]. rewrite slot_tasks_seq.
  set (out := fun i => sample_output base_feature image mask [] flag
                (default S754_nan (tilt_params !! i), default S754_nan (phi_params !! i))).
  assert (Houts : sample_outputs base_feature image mask flag (zip tilt_params phi_params)
                  = out <$> seq 0 n).
  { unfold sample_outputs, out, n. symmetry. now apply fmap_seq_zip. }
  assert (Hworker : forall i,
            sample_worker this image mask tilt_params phi_params flag i [] = out i).
  { intros i. unfold sample_worker, out, sample_output. cbn [fst snd].
    now rewrite (detectAndComputeImpl_feature _ _ _ _ _ _ _ _ Hb). }
  set (fs := (fun i => Some (sample_worker this image mask tilt_params phi_params flag i))
               <$> seq 0 n).
  assert (Hfs : forall i, i < n ->
            fs !! i = Some (Some (sample_worker this image mask tilt_params phi_params flag i))).
  { intros i Hi. unfold fs. rewrite list_lookup_fmap, lookup_seq_lt by exact Hi. reflexivity. }
  assert (Hfsn : length fs = n) by (unfold fs; now rewrite length_fmap, length_seq).
  rewrite Houts.
  destruct (gather_cases (out <$> seq 0 n)) as [[xs Hxs]|[Hex Hraised]].
  { apply Forall_fmap, Forall_forall. intros i _. cbn. unfold out, sample_output.
    apply detectAndComputeImpl_defined. }
  - rewrite Hxs, gather_returned. cbn [obind].
    assert (Hn : length xs = n).
    { apply (f_equal length) in Hxs. rewrite !length_fmap, length_seq in Hxs. lia. }
    rewrite (run_slot_tasks fs (xs.*1) (xs.*2));
      rewrite ?length_fmap, ?length_replicate; try lia; [reflexivity|congruence|].
    rewrite Hfsn. intros i Hi. rewrite (Hfs i Hi).
    assert (Hxi : Some (out i) = Returned <$> xs !! i).
    { rewrite <- list_lookup_fmap, <- Hxs, list_lookup_fmap, lookup_seq_lt by exact Hi.
      reflexivity. }
    destruct (xs !! i) as [[kps d]|] eqn:Hxsi; [|discriminate].
    injection Hxi as Hxi.
    exists [], kps, d. rewrite lookup_replicate_2 by exact Hi.
    rewrite !list_lookup_fmap, Hxsi, Hworker. auto.
  - rewrite Hraised. cbn [obind].
    rewrite run_slot_tasks_raised_order; [reflexivity|eapply schedule_NoDup, Hs| |].
    + intros i Hi. apply (schedule_elem _ _ _ Hs) in Hi.
      exists (sample_worker this image mask tilt_params phi_params flag i), [].
      rewrite (Hfs i Hi), lookup_replicate_2 by exact Hi.
      split; [reflexivity|]. split; [reflexivity|].
      rewrite Hworker. unfold out, sample_output. apply detectAndComputeImpl_defined.
    + apply Exists_exists in Hex as (call & Hin & ->).
      apply list_elem_of_fmap in Hin as (i & Hout & Hi).
      apply elem_of_seq in Hi.
      exists i, (sample_worker this image mask tilt_params phi_params flag i), [].
      rewrite (schedule_elem _ _ _ Hs), (Hfs i) by lia.
      rewrite lookup_replicate_2 by lia. rewrite Hworker. auto with lia.
Qed.

End detector_facts.

Section detector_claims.
Context `{Libm} `{ImgProc}.

(** For every schedule, the call is the merge of the outputs of the
    samples in the order of the plan, and raises when a sample task
    raises. *)
Lemma detectAndCompute_gather (this : AffineInvariantFeature) (base_feature : Feature2D)
    (fuel : nat) (params : list double * list double) (sched : list nat)
    (image mask : Mat) (keypoints : list KeyPoint) (descriptors : Mat) (flag : bool) :
  base_feature_ this = Some base_feature ->
  generate_params fuel = Some params ->
  schedule (length params.1) sched ->
  detectAndCompute this fuel sched image mask keypoints descriptors flag
  = Some (do outputs <-
            gather (sample_outputs base_feature image mask flag (zip params.1 params.2));
          merge (outputs.*1) (outputs.*2) keypoints descriptors).
Proof.
  intros Hb Hp Hs. unfold detectAndCompute. rewrite Hb, Hp. cbn [mbind option_bind].
  f_equal. apply (detect_samples_gather _ _ _ _ _ _ _ _ _ _ Hb); [|exact Hs].
  exact (generate_params_lengths _ _ Hp).
Qed.

Lemma sample_outputs_defined (base_feature : Feature2D) (image mask : Mat) (flag : bool)
    (plan : list (double * double)) :
  Forall (fun call => call <> Undefined) (sample_outputs base_feature image mask flag plan).
Proof.
  apply Forall_fmap, Forall_forall. intros sample _. cbn.
  apply detectAndComputeImpl_defined.
Qed.

Lemma sample_outputs_length (base_feature : Feature2D) (image mask : Mat) (flag : bool)
    (fuel : nat) (params : list double * list double)
    (outputs : list (list KeyPoint * Mat)) :
  generate_params fuel = Some params ->
  sample_outputs base_feature image mask flag (zip params.1 params.2) = Returned <$> outputs ->
  outputs <> [].
Proof.
  intros Hp Hout ->. apply (f_equal length) in Hout.
  unfold sample_outputs in Hout. rewrite length_fmap, length_zip_with in Hout.
  pose proof (generate_params_nonempty _ _ Hp).
  pose proof (generate_params_lengths _ _ Hp). cbn in Hout. lia.
Qed.

(** The descriptors a sample task returns are those the backend returned to
    it, for the keypoints and the flag of the task. *)
Lemma sample_output_descriptors (base_feature : Feature2D) (image mask : Mat)
    (keypoints : list KeyPoint) (flag : bool) (sample : double * double)
    (o : list KeyPoint * Mat) :
  sample_output base_feature image mask keypoints flag sample = Returned o ->
  exists image' mask' kps,
    backend_detectAndCompute base_feature image' mask' keypoints flag = Some (kps, o.2).
Proof.
  unfold sample_output, detectAndComputeImpl, feature_of. cbn [base_feature_].
  destruct (prepare_sample _ _ _ _) as [[[image' affine] mask']| |]; try discriminate.
  cbn [snd].
  destruct (backend_detectAndCompute _ _ _ _ _) as [[kps descriptors]|] eqn:Hbackend;
    [|discriminate].
  cbn [checked obind].
  destruct (invert_keypoints affine kps) as [kps'| |]; try discriminate.
  cbn [obind]. intros [= <-]. exists image', mask', kps. exact Hbackend.
Qed.

(** When no sample task returns descriptors, the call raises. *)
Lemma detectAndCompute_no_descriptors (this : AffineInvariantFeature)
    (base_feature : Feature2D) (fuel : nat) (params : list double * list double)
    (sched : list nat) (image mask : Mat) (keypoints : list KeyPoint)
    (descriptors : Mat) (flag : bool) :
  base_feature_ this = Some base_feature ->
  generate_params fuel = Some params ->
  schedule (length params.1) sched ->
  (forall o, Returned o ∈ sample_outputs base_feature image mask flag (zip params.1 params.2) ->
     Mat_empty o.2 = true) ->
  detectAndCompute this fuel sched image mask keypoints descriptors flag = Some Raised.
Proof.
  intros Hb Hp Hs Hempty.
  rewrite (detectAndCompute_gather _ _ _ _ sched _ _ _ _ _ Hb Hp Hs). f_equal.
  destruct (gather_cases _ (sample_outputs_defined base_feature image mask flag
                              (zip params.1 params.2))) as [[outputs Hout]|[_ ->]];
    [|reflexivity].
  rewrite Hout, gather_returned. cbn [obind].
  apply merge_all_empty.
  - intros Hnil. apply fmap_nil_inv in Hnil.
    exact (sample_outputs_length _ _ _ _ _ _ _ Hp Hout Hnil).
  - apply Forall_fmap, Forall_forall. intros o Ho. cbn. apply Hempty.
    rewrite Hout. apply list_elem_of_fmap. eauto.
Qed.

(** C7: the call gives the same result for every order in which
    [cv::parallel_for_] runs the tasks; when it returns, the keypoints are
    the keypoints of the samples, concatenated in the order of the plan,
    and the descriptor rows of every sample lie at the offset given by the
    rows of the samples before it; when every sample task returns a
    well-formed output with descriptors, the call returns, and the
    descriptor matrix is the rows of the samples one after the other in
    that order. *)
Theorem detectAndCompute_merge_order (this : AffineInvariantFeature)
    (base_feature : Feature2D) (fuel : nat) (params : list double * list double)
    (sched sched' : list nat) (image mask : Mat) (keypoints : list KeyPoint)
    (descriptors : Mat) (flag : bool) :
  base_feature_ this = Some base_feature ->
  generate_params fuel = Some params ->
  schedule (length params.1) sched ->
  schedule (length params.1) sched' ->
  let samples := sample_outputs base_feature image mask flag (zip params.1 params.2) in
  detectAndCompute this fuel sched image mask keypoints descriptors flag
  = detectAndCompute this fuel sched' image mask keypoints descriptors flag /\
  (forall kps D,
     detectAndCompute this fuel sched image mask keypoints descriptors flag
     = Some (Returned (kps, D)) ->
     exists outputs,
       samples = Returned <$> outputs /\
       kps = concat (outputs.*1) /\
       forall pre o post, outputs = pre ++ o :: post -> Mat_empty o.2 = false ->
         rows_at D (sum_rows (pre.*2)) (mat_rows o.2) = mat_data o.2) /\
  (forall outputs,
     samples = Returned <$> outputs ->
     well_formed_outputs outputs ->
     Forall (fun o => Mat_empty o.2 = false) outputs ->
     exists D, detectAndCompute this fuel sched image mask keypoints descriptors flag
               = Some (Returned (concat (outputs.*1), D)) /\
               mat_data D = concat (mat_data <$> outputs.*2)).
Proof.
  intros Hb Hp Hs Hs' samples.
  rewrite (detectAndCompute_gather _ _ _ _ sched _ _ _ _ _ Hb Hp Hs).
  rewrite (detectAndCompute_gather _ _ _ _ sched' _ _ _ _ _ Hb Hp Hs').
  fold samples. split; [reflexivity|]. split.
  - intros kps D [= Hm].
    destruct (gather samples) as [outputs| |] eqn:Hgather; try discriminate.
    cbn [obind] in Hm. apply gather_inv in Hgather.
    exists outputs. split; [exact Hgather|].
    apply merge_returned in Hm as (-> & _ & _ & Hat). split; [reflexivity|].
    intros pre o post Hout _.
    apply (Hat (pre.*2) o.2 (post.*2)).
    rewrite Hout, fmap_app, fmap_cons. reflexivity.
  - intros outputs Hout Hwf Hall.
    rewrite Hout, gather_returned. cbn [obind].
    destruct (merge_well_formed outputs keypoints descriptors) as (D & HD & _ & Hdata);
      [|exact Hwf|exact Hall|].
    { exact (sample_outputs_length _ _ _ _ _ _ _ Hp Hout). }
    exists D. rewrite HD. split; [reflexivity|exact Hdata].
Qed.

(** C3, on the code: whenever the call returns, the descriptor matrix has
    one row per keypoint; but when no sample task returns descriptors, as
    when every sample yields zero keypoints, the call does not return an
    empty keypoint sequence with an empty matrix: it raises. *)
Theorem detectAndCompute_counts (this : AffineInvariantFeature)
    (base_feature : Feature2D) (fuel : nat) (params : list double * list double)
    (sched : list nat) (image mask : Mat) (keypoints : list KeyPoint)
    (descriptors : Mat) (flag : bool) :
  base_feature_ this = Some base_feature ->
  generate_params fuel = Some params ->
  schedule (length params.1) sched ->
  let samples := sample_outputs base_feature image mask flag (zip params.1 params.2) in
  (forall kps D,
     detectAndCompute this fuel sched image mask keypoints descriptors flag
     = Some (Returned (kps, D)) ->
     mat_rows D = length kps) /\
  ((forall o, Returned o ∈ samples -> Mat_empty o.2 = true) ->
   detectAndCompute this fuel sched image mask keypoints descriptors flag = Some Raised).
Proof.
  intros Hb Hp Hs samples. split.
  - rewrite (detectAndCompute_gather _ _ _ _ sched _ _ _ _ _ Hb Hp Hs). fold samples.
    intros kps D [= Hm].
    destruct (gather samples) as [outputs| |] eqn:Hgather; try discriminate.
    cbn [obind] in Hm. apply gather_inv in Hgather.
    apply merge_returned in Hm as (_ & _ & Hrows & _). apply Hrows.
    intros Hnil. apply fmap_nil_inv in Hnil.
    exact (sample_outputs_length _ _ _ _ _ _ _ Hp Hgather Hnil).
  - intros Hempty. now apply (detectAndCompute_no_descriptors _ base_feature _ params).
Qed.

(** C2, on the code: the flag is handed to the backend. Every call of the
    backend a sample task makes carries the flag the task was given, and
    the identity sample always makes that call, on the source image. The
    keypoints the caller passes in are never handed on: every task starts
    from an empty vector. So with [useProvidedKeypoints = true] a backend
    that describes the keypoints it is given describes none: no sample has
    descriptors, and the call raises, for every library and every
    image. *)
Theorem useProvidedKeypoints_reaches_backend (this : AffineInvariantFeature)
    (base_feature : Feature2D) (fuel : nat) (params : list double * list double)
    (sched : list nat) (image mask : Mat) (keypoints keypoints' : list KeyPoint)
    (descriptors : Mat) (tilt phi : double) (flag : bool) :
  base_feature_ this = Some base_feature ->
  generate_params fuel = Some params ->
  schedule (length params.1) sched ->
  (forall call,
     call ∈ (detectAndComputeImpl this image mask keypoints tilt phi flag).1 ->
     call_useProvidedKeypoints call = flag /\ call_keypoints call = keypoints) /\
  (detectAndComputeImpl this image mask keypoints (dbl 1 0) (S754_zero false) flag).1
  = [mkBackendCall image (identity_sample_mask image mask) keypoints flag] /\
  detectAndCompute this fuel sched image mask keypoints descriptors flag
  = detectAndCompute this fuel sched image mask keypoints' descriptors flag /\
  (describes_provided_keypoints base_feature ->
   detectAndCompute this fuel sched image mask keypoints descriptors true = Some Raised).
Proof.
  intros Hb Hp Hs. split; [|split; [|split]].
  - intros call. apply detectAndComputeImpl_calls.
  - now rewrite (detectAndComputeImpl_identity _ _ _ _ _ _ Hb).
  - now rewrite !(detectAndCompute_gather _ _ _ _ sched _ _ _ _ _ Hb Hp Hs).
  - intros Hprovided.
    apply (detectAndCompute_no_descriptors _ base_feature _ params); try assumption.
    intros o Ho. apply list_elem_of_fmap in Ho as (sample & Ho & _). symmetry in Ho.
    apply sample_output_descriptors in Ho as (image' & mask' & kps & Hbackend).
    destruct (Hprovided image' mask' []) as (d & Hd & Hrows).
    rewrite Hd in Hbackend. injection Hbackend as _ <-.
    unfold Mat_empty. rewrite Hrows. reflexivity.
Qed.

(** C9, on the code: for the identity sample (tilt 1, angle 0) no warp and
    no blur is applied and the backend is called on the source image and
    the mask (a mask of 255s when the source mask is empty); but the map
    of the sample is a [cv::Matx32f], a matrix of 3 rows and 2 columns,
    which [cv::invertAffineTransform] refuses: the task raises instead of
    returning the output of the backend. *)
Theorem identity_sample_raises (this : AffineInvariantFeature) (base_feature : Feature2D)
    (src_image src_mask : Mat) (keypoints : list KeyPoint) (flag : bool) :
  base_feature_ this = Some base_feature ->
  asserts_affine_shape ->
  detectAndComputeImpl this src_image src_mask keypoints (dbl 1 0) (S754_zero false) flag
  = ([mkBackendCall src_image (identity_sample_mask src_image src_mask) keypoints flag],
     Raised).
Proof.
  intros Hb Hassert.
  pose proof (detectAndComputeImpl_raises this src_image src_mask keypoints (dbl 1 0)
                (S754_zero false) flag Hassert) as Hraised.
  rewrite (detectAndComputeImpl_identity _ _ _ _ _ _ Hb) in Hraised |- *.
  cbn [snd] in Hraised. now rewrite Hraised.
Qed.

End detector_claims.

(** C7 on the 2x2 image: the tasks run first to last and last to first. *)
Lemma detectAndCompute_merge_order_witness :
  @detectAndCompute table_libm plain_imgproc (feature_of corner_backend) 16
    (seq 0 43) tile_image Mat_new [] Mat_new false
  = @detectAndCompute table_libm plain_imgproc (feature_of corner_backend) 16
      (rev (seq 0 43)) tile_image Mat_new [] Mat_new false.
Proof.
  refine (proj1 (@detectAndCompute_merge_order table_libm plain_imgproc
                   (feature_of corner_backend) corner_backend 16
                   (plan_of_the_spec.*1, plan_of_the_spec.*2)
                   (seq 0 43) (rev (seq 0 43)) tile_image Mat_new [] Mat_new false
                   _ _ _ _)).
  - reflexivity.
  - vm_compute. reflexivity.
  - change (seq 0 43 ≡ₚ seq 0 43). reflexivity.
  - change (rev (seq 0 43) ≡ₚ seq 0 43). symmetry. apply Permutation_rev.
Defined.

(** C3 at a backend that finds nothing: the call raises, with a library
    that checks nothing as with one that asserts the shape of the maps. *)
Lemma detectAndCompute_counts_witness :
  @detectAndCompute table_libm plain_imgproc (feature_of blind_backend) 16
    (seq 0 43) tile_image Mat_new [] earlier_descriptors false
  = Some Raised /\
  @detectAndCompute table_libm asserting_imgproc (feature_of blind_backend) 16
    (seq 0 43) tile_image Mat_new [] earlier_descriptors false
  = Some Raised.
Proof.
  split.
  - refine (proj2 (@detectAndCompute_counts table_libm plain_imgproc
                     (feature_of blind_backend) blind_backend 16
                     (plan_of_the_spec.*1, plan_of_the_spec.*2)
                     (seq 0 43) tile_image Mat_new [] earlier_descriptors false _ _ _) _).
    + reflexivity.
    + vm_compute. reflexivity.
    + change (seq 0 43 ≡ₚ seq 0 43). reflexivity.
    + intros o Ho. apply list_elem_of_fmap in Ho as (sample & Ho & _). symmetry in Ho.
      apply sample_output_descriptors in Ho as (image' & mask' & kps & Hbackend).
      injection Hbackend as _ <-. reflexivity.
  - refine (proj2 (@detectAndCompute_counts table_libm asserting_imgproc
                     (feature_of blind_backend) blind_backend 16
                     (plan_of_the_spec.*1, plan_of_the_spec.*2)
                     (seq 0 43) tile_image Mat_new [] earlier_descriptors false _ _ _) _).
    + reflexivity.
    + vm_compute. reflexivity.
    + change (seq 0 43 ≡ₚ seq 0 43). reflexivity.
    + intros o Ho. apply list_elem_of_fmap in Ho as (sample & Ho & _). symmetry in Ho.
      apply sample_output_descriptors in Ho as (image' & mask' & kps & Hbackend).
      injection Hbackend as _ <-. reflexivity.
Defined.

(** C2 at the backend that describes the keypoints it is given when the
    flag is set: the identity sample hands it the flag and no keypoint,
    and the call with [true] raises; with the library that checks nothing
    the call with [false] returns 43 keypoints. *)
Lemma useProvidedKeypoints_reaches_backend_witness :
  (@detectAndComputeImpl asserting_imgproc (feature_of provided_only_backend)
     tile_image Mat_new [] (dbl 1 0) (S754_zero false) true).1
  = [mkBackendCall tile_image (Mat_filled (mkSize 2 2) CV_8UC1 255) [] true] /\
  @detectAndCompute table_libm asserting_imgproc (feature_of provided_only_backend) 16
    (seq 0 43) tile_image Mat_new [] Mat_new true
  = Some Raised /\
  @detectAndCompute table_libm plain_imgproc (feature_of provided_only_backend) 16
    (seq 0 43) tile_image Mat_new [] Mat_new true
  = Some Raised /\
  exists kps D,
    @detectAndCompute table_libm plain_imgproc (feature_of provided_only_backend) 16
      (seq 0 43) tile_image Mat_new [] Mat_new false
    = Some (Returned (kps, D)) /\
    length kps = 43.
Proof.
  assert (Hprovided : describes_provided_keypoints provided_only_backend).
  { intros image mask keypoints. eexists. split; [reflexivity|].
    unfold mat_rows. cbn [mat_data]. apply length_replicate. }
  destruct (@useProvidedKeypoints_reaches_backend table_libm asserting_imgproc
              (feature_of provided_only_backend) provided_only_backend 16
              (plan_of_the_spec.*1, plan_of_the_spec.*2)
              (seq 0 43) tile_image Mat_new [] [] Mat_new (dbl 1 0) (S754_zero false) true)
    as (_ & Hcall & _ & Hraised).
  { reflexivity. }
  { vm_compute. reflexivity. }
  { change (seq 0 43 ≡ₚ seq 0 43). reflexivity. }
  destruct (@useProvidedKeypoints_reaches_backend table_libm plain_imgproc
              (feature_of provided_only_backend) provided_only_backend 16
              (plan_of_the_spec.*1, plan_of_the_spec.*2)
              (seq 0 43) tile_image Mat_new [] [] Mat_new (dbl 1 0) (S754_zero false) true)
    as (_ & _ & _ & Hraised').
  { reflexivity. }
  { vm_compute. reflexivity. }
  { change (seq 0 43 ≡ₚ seq 0 43). reflexivity. }
  split; [exact Hcall|]. split; [exact (Hraised Hprovided)|].
  split; [exact (Hraised' Hprovided)|].
  eexists _, _. split; [vm_compute; reflexivity|reflexivity].
Defined.

(** C9 on the 2x2 image and the backend that finds a corner: the backend
    is called on the image, and the task raises. *)
Lemma identity_sample_raises_witness :
  @detectAndComputeImpl asserting_imgproc (feature_of corner_backend) tile_image Mat_new []
    (dbl 1 0) (S754_zero false) false
  = ([mkBackendCall tile_image (Mat_filled (mkSize 2 2) CV_8UC1 255) [] false], Raised).
Proof.
  refine (@identity_sample_raises asserting_imgproc (feature_of corner_backend)
            corner_backend tile_image Mat_new [] false _ _).
  - reflexivity.
  - split.
    + intros src a size interpolation border Hshape. cbn. now rewrite Hshape.
    + intros a Hshape. cbn. now rewrite Hshape.
Defined.

(* ===================================================================== *)
(** * Further properties of the result matcher *)
(* ===================================================================== *)

Section matcher_bounds.
Context `{Calib3d}.

Lemma vec_at_is_Some {A : Type} (v : list A) (i : Z) :
  is_Some (vec_at v i) <-> index_in_range v i.
Proof.
  unfold vec_at, index_in_range. destruct (i <? 0)%Z eqn:Hneg.
  - apply Z.ltb_lt in Hneg. split; [intros [x [=]]|lia].
  - apply Z.ltb_ge in Hneg. rewrite lookup_lt_is_Some. lia.
Qed.

Lemma gather_points_is_Some (sk rk : list KeyPoint) (unique_matches : list DMatch) :
  is_Some (gather_points sk rk unique_matches) <->
  Forall (fun m => index_in_range sk (queryIdx m) /\ index_in_range rk (trainIdx m))
         unique_matches.
Proof.
  induction unique_matches as [|m rest IH]; cbn [gather_points].
  - split; [constructor|eauto].
  - rewrite Forall_cons, <- IH, <- !vec_at_is_Some.
    destruct (vec_at sk (queryIdx m)) as [ks|]; cbn [mbind option_bind];
      [|split; [intros [? [=]]|intros [[[? [=]] _] _]]].
    destruct (vec_at rk (trainIdx m)) as [kr|]; cbn [mbind option_bind];
      [|split; [intros [? [=]]|intros [[_ [? [=]]] _]]].
    destruct (gather_points sk rk rest) as [[sp rp]|]; cbn [mbind option_bind].
    + split; eauto.
    + split; [intros [? [=]]|intros [_ [? [=]]]].
Qed.

(** X1: [match] reads [source.keypoints[queryIdx]] and
    [reference.keypoints[trainIdx]] for every ratio-surviving match: the
    points exist exactly when all these indices lie within the two keypoint
    vectors, and with four or more survivors an index outside them makes
    the call undefined, before the estimator is called. *)
Theorem match_index_bounds (this : ResultMatcher) (source : Results) :
  let unique_matches := filter_unique (knnMatch (matcher_ this) (descriptors source) 2) in
  let in_range := fun m =>
    index_in_range (keypoints source) (queryIdx m) /\
    index_in_range (keypoints (reference_ this)) (trainIdx m) in
  (is_Some (gather_points (keypoints source) (keypoints (reference_ this)) unique_matches)
   <-> Forall in_range unique_matches) /\
  (4 <= length unique_matches -> ~ Forall in_range unique_matches ->
   match_ this source = ([EvKnnMatch], Undefined)).
Proof.
  intros unique_matches in_range. split; [apply gather_points_is_Some|].
  intros Hge Hout. unfold match_. fold unique_matches.
  destruct (length unique_matches <? 4) eqn:Hlt; [apply Nat.ltb_lt in Hlt; lia|].
  destruct (gather_points _ _ unique_matches) as [[sp rp]|] eqn:Hg; [|reflexivity].
  destruct Hout. apply gather_points_is_Some. rewrite Hg. eauto.
Qed.

Lemma inliers_cons (m : DMatch) (rest : list DMatch) (b : Z) (mask : list Z) :
  inliers (m :: rest) (b :: mask)
  = if (b =? 0)%Z then inliers rest mask else m :: inliers rest mask.
Proof.
  unfold inliers. cbn [zip zip_with]. rewrite filter_cons. cbn [snd].
  destruct (Z.eqb_spec b 0) as [->|Hb].
  - rewrite decide_False by (intros Hne; now apply Hne). reflexivity.
  - rewrite decide_True by exact Hb. reflexivity.
Qed.

Lemma pack_matches_inliers (unique_matches : list DMatch) (mask : list Z) : forall i,
  i + length unique_matches <= length mask ->
  pack_matches unique_matches mask i = Some (inliers unique_matches (drop i mask)).
Proof.
  induction unique_matches as [|m rest IH]; intros i Hlen; cbn [pack_matches length] in *.
  - reflexivity.
  - destruct (lookup_lt_is_Some_2 mask i ltac:(lia)) as [b Hb].
    rewrite Hb, (drop_S _ _ _ Hb), inliers_cons. cbn [mbind option_bind].
    rewrite IH by lia. reflexivity.
Qed.

Lemma pack_matches_short (unique_matches : list DMatch) (mask : list Z) : forall i,
  i <= length mask -> length mask < i + length unique_matches ->
  pack_matches unique_matches mask i = None.
Proof.
  induction unique_matches as [|m rest IH]; intros i Hi Hlen; cbn [pack_matches length] in *.
  - lia.
  - destruct (mask !! i) as [b|] eqn:Hb; cbn [mbind option_bind]; [|reflexivity].
    apply lookup_lt_Some in Hb. rewrite IH by lia. reflexivity.
Qed.

(** X2: when the estimator fits a transform and fills a mask with an entry
    for every candidate, [match] returns that transform and exactly the
    candidates whose mask entry is not zero, in the order of the query
    rows. *)
Theorem match_fitted_inliers (this : ResultMatcher) (source : Results)
    (source_points reference_points : list Point2f) (H' : Matx) (mask : list Z) :
  let unique_matches := filter_unique (knnMatch (matcher_ this) (descriptors source) 2) in
  4 <= length unique_matches ->
  gather_points (keypoints source) (keypoints (reference_ this)) unique_matches
  = Some (source_points, reference_points) ->
  findHomography source_points reference_points RANSAC (dbl 5 0) = Fitted H' mask ->
  length unique_matches <= length mask ->
  match_ this source
  = ([EvKnnMatch; EvFindHomography (length unique_matches)],
     Returned (H', inliers unique_matches mask)).
Proof.
  intros unique_matches Hge Hpts Hfit Hmask.
  unfold match_. fold unique_matches.
  destruct (length unique_matches <? 4) eqn:Hlt; [apply Nat.ltb_lt in Hlt; lia|].
  rewrite Hpts, Hfit.
  destruct (gather_points_length _ _ _ _ _ Hpts) as [-> _].
  rewrite pack_matches_inliers by lia. rewrite drop_0. reflexivity.
Qed.

(** X3: the packing loop reads [mask[i]] for every candidate; when the
    estimator leaves a mask with fewer entries than candidates, the call
    has no defined result. *)
Theorem match_short_mask (this : ResultMatcher) (source : Results)
    (source_points reference_points : list Point2f) (H' : Matx) (mask : list Z) :
  let unique_matches := filter_unique (knnMatch (matcher_ this) (descriptors source) 2) in
  4 <= length unique_matches ->
  gather_points (keypoints source) (keypoints (reference_ this)) unique_matches
  = Some (source_points, reference_points) ->
  findHomography source_points reference_points RANSAC (dbl 5 0) = Fitted H' mask ->
  length mask < length unique_matches ->
  (match_ this source).2 = Undefined.
Proof.
  intros unique_matches Hge Hpts Hfit Hmask.
  unfold match_. fold unique_matches.
  destruct (length unique_matches <? 4) eqn:Hlt; [apply Nat.ltb_lt in Hlt; lia|].
  rewrite Hpts, Hfit. cbn [snd].
  rewrite pack_matches_short by lia. reflexivity.
Qed.

Lemma pack_matches_sublist (unique_matches : list DMatch) (mask : list Z) :
  forall i packed,
  pack_matches unique_matches mask i = Some packed -> packed `sublist_of` unique_matches.
Proof.
  induction unique_matches as [|m rest IH]; intros i packed; cbn [pack_matches].
  - intros [= <-]. constructor.
  - destruct (mask !! i) as [b|]; cbn [mbind option_bind]; [|discriminate].
    destruct (pack_matches rest mask (S i)) as [packed'|] eqn:Hrest;
      cbn [mbind option_bind]; [|discriminate].
    intros [= <-]. specialize (IH _ _ Hrest).
    destruct (b =? 0)%Z; [now apply sublist_cons|now apply sublist_skip].
Qed.

Lemma filter_unique_rows (all_matches : list (list DMatch)) (m : DMatch) :
  m ∈ filter_unique all_matches ->
  exists m1 more,
    (m :: m1 :: more) ∈ all_matches /\
    dgt (promote (distance m)) (dmul ratio (promote (distance m1))) = false.
Proof.
  induction all_matches as [|row rest IH]; cbn [filter_unique].
  - intros Hm. now apply not_elem_of_nil in Hm.
  - destruct (ratio_test row) as [m0|] eqn:Hrow.
    + intros Hm. apply elem_of_cons in Hm as [->|Hm].
      * destruct row as [|r0 [|r1 more]]; try discriminate. cbn [ratio_test] in Hrow.
        destruct (dgt _ _) eqn:Hgt; [discriminate|]. injection Hrow as ->.
        exists r1, more. split; [apply list_elem_of_here|exact Hgt].
      * destruct (IH Hm) as (m1 & more & Hin & Hgt).
        exists m1, more. split; [now apply list_elem_of_further|exact Hgt].
    + intros Hm. destruct (IH Hm) as (m1 & more & Hin & Hgt).
      exists m1, more. split; [now apply list_elem_of_further|exact Hgt].
Qed.

Lemma filter_unique_length (all_matches : list (list DMatch)) :
  length (filter_unique all_matches) <= length all_matches.
Proof.
  induction all_matches as [|row rest IH]; cbn [filter_unique length]; [lia|].
  destruct (ratio_test row); cbn [length]; lia.
Qed.

(** What a call that returns has returned. *)
Lemma match_returned (this : ResultMatcher) (source : Results) (T : Matx)
    (matches : list DMatch) :
  let unique_matches := filter_unique (knnMatch (matcher_ this) (descriptors source) 2) in
  (match_ this source).2 = Returned (T, matches) ->
  (T = Matx33f_eye /\ matches = []) \/
  (4 <= length unique_matches /\
   exists source_points reference_points mask,
     gather_points (keypoints source) (keypoints (reference_ this)) unique_matches
     = Some (source_points, reference_points) /\
     findHomography source_points reference_points RANSAC (dbl 5 0) = Fitted T mask /\
     pack_matches unique_matches mask 0 = Some matches).
Proof.
  intros unique_matches. unfold match_. fold unique_matches.
  destruct (length unique_matches <? 4) eqn:Hlt.
  { cbn [snd]. intros [= <- <-]. now left. }
  apply Nat.ltb_ge in Hlt.
  destruct (gather_points _ _ unique_matches) as [[sp rp]|] eqn:Hg; [|discriminate].
  destruct (findHomography sp rp RANSAC (dbl 5 0)) as [H' mask|] eqn:Hfit; cbn [snd].
  - destruct (pack_matches unique_matches mask 0) as [packed|] eqn:Hpack; [|discriminate].
    cbn [defined obind app]. intros [= <- <-].
    right. split; [exact Hlt|]. exists sp, rp, mask. auto.
  - destruct (gather_points_length _ _ _ _ _ Hg) as [Hsp _].
    unfold vector_resize. rewrite take_nil. cbn [app length].
    rewrite Nat.sub_0_r, pack_matches_zero_mask by lia.
    cbn [defined obind app]. intros [= <- <-]. now left.
Qed.

(** X4: every match that [match] returns is the nearest neighbour of a
    query row that has two neighbours and passes the ratio test, the
    matches come in the order of the query rows, and there are at most as
    many as rows. *)
Theorem match_returns_row_heads (this : ResultMatcher) (source : Results) (T : Matx)
    (matches : list DMatch) :
  let all_matches := knnMatch (matcher_ this) (descriptors source) 2 in
  (match_ this source).2 = Returned (T, matches) ->
  matches `sublist_of` filter_unique all_matches /\
  length matches <= length all_matches /\
  forall m, m ∈ matches ->
    exists m1 more,
      (m :: m1 :: more) ∈ all_matches /\
      dgt (promote (distance m)) (dmul ratio (promote (distance m1))) = false.
Proof.
  intros all_matches Hret.
  assert (Hsub : matches `sublist_of` filter_unique all_matches).
  { destruct (match_returned _ _ _ _ Hret) as [[_ ->]|(_ & sp & rp & mask & _ & _ & Hpack)].
    - apply sublist_nil_l.
    - exact (pack_matches_sublist _ _ _ _ Hpack). }
  split; [exact Hsub|]. split.
  - apply sublist_length in Hsub. pose proof (filter_unique_length all_matches). lia.
  - intros m Hm. apply filter_unique_rows.
    eapply elem_of_submseteq; [exact Hm|]. now apply sublist_submseteq.
Qed.

(** X5: a transform other than the identity, or a match, comes from the
    estimator only: the call then had at least four ratio-surviving
    correspondences and the estimator fitted the returned transform. *)
Theorem match_result_from_estimator (this : ResultMatcher) (source : Results) (T : Matx)
    (matches : list DMatch) :
  let unique_matches := filter_unique (knnMatch (matcher_ this) (descriptors source) 2) in
  (match_ this source).2 = Returned (T, matches) ->
  T <> Matx33f_eye \/ matches <> [] ->
  4 <= length unique_matches /\
  exists source_points reference_points mask,
    gather_points (keypoints source) (keypoints (reference_ this)) unique_matches
    = Some (source_points, reference_points) /\
    findHomography source_points reference_points RANSAC (dbl 5 0) = Fitted T mask /\
    matches = inliers unique_matches mask.
Proof.
  intros unique_matches Hret Hsome.
  destruct (match_returned _ _ _ _ Hret) as [[-> ->]|(Hge & sp & rp & mask & Hg & Hfit & Hpack)].
  - destruct Hsome as [Hne|Hne]; now destruct Hne.
  - split; [exact Hge|]. exists sp, rp, mask. split; [exact Hg|]. split; [exact Hfit|].
    unfold unique_matches in *.
    destruct (decide (length (filter_unique (knnMatch (matcher_ this) (descriptors source) 2))
                      <= length mask)) as [Hle|Hgt].
    + rewrite pack_matches_inliers in Hpack by lia.
      rewrite drop_0 in Hpack. now injection Hpack.
    + rewrite pack_matches_short in Hpack by lia. discriminate.
Qed.

(** X6: a NaN distance never rejects a row: the comparison
    [distance1 > 0.75 * distance2] is false when either distance is NaN, so
    the nearest neighbour of such a row is kept. *)
Theorem ratio_test_nan (m0 m1 : DMatch) (more : list DMatch) :
  distance m0 = S754_nan \/ distance m1 = S754_nan ->
  ratio_test (m0 :: m1 :: more) = Some m0.
Proof.
  intros Hnan. cbn [ratio_test].
  assert (Hgt : dgt (promote (distance m0)) (dmul ratio (promote (distance m1))) = false).
  { unfold dgt, SFltb. destruct Hnan as [-> | ->]; cbn [promote].
    - now destruct (dmul ratio (promote (distance m1))).
    - reflexivity. }
  now rewrite Hgt.
Qed.

(** X7: when the index returns fewer than two neighbours for every query
    row, or fewer than four rows, no homography is estimated: [match]
    returns the identity transform and no match. *)
Theorem match_few_neighbours (this : ResultMatcher) (source : Results) :
  let all_matches := knnMatch (matcher_ this) (descriptors source) 2 in
  Forall (fun row => length row < 2) all_matches \/ length all_matches < 4 ->
  match_ this source = ([EvKnnMatch], Returned (Matx33f_eye, [])).
Proof.
  intros all_matches Hfew.
  assert (Hlt : length (filter_unique all_matches) < 4).
  { destruct Hfew as [Hshort|Hrows].
    - assert (Hnil : filter_unique all_matches = []); [|now rewrite Hnil; simpl; lia].
      induction Hshort as [|row rest Hrow _ IH]; [reflexivity|].
      cbn [filter_unique]. destruct row as [|r0 [|r1 more]]; cbn in Hrow |- *; try exact IH.
      lia.
    - pose proof (filter_unique_length all_matches). lia. }
  unfold match_. fold all_matches. apply Nat.ltb_lt in Hlt. now rewrite Hlt.
Qed.

End matcher_bounds.

(** X1 on an index whose second row names reference keypoint 7 of 4. *)
Lemma match_index_bounds_witness :
  @match_ all_inliers stray_matcher square_results = ([EvKnnMatch], Undefined).
Proof.
  refine (proj2 (@match_index_bounds all_inliers stray_matcher square_results) _ _).
  - vm_compute. lia.
  - rewrite <- gather_points_is_Some. vm_compute. intros [x Hx]. discriminate.
Defined.

(** X2 on the square and a mask that keeps the first and the last pair. *)
Lemma match_fitted_inliers_witness :
  @match_ two_inliers square_matcher square_results
  = ([EvKnnMatch; EvFindHomography 4],
     Returned (shift_transform, [mkDMatch 0 0 0 (flt 1 0); mkDMatch 3 3 0 (flt 1 0)])).
Proof.
  refine (@match_fitted_inliers two_inliers square_matcher square_results
            (map pt square_keypoints) (map pt square_keypoints) shift_transform
            [1; 0; 0; 255]%Z _ _ _ _).
  - vm_compute. lia.
  - vm_compute. reflexivity.
  - reflexivity.
  - vm_compute. lia.
Defined.

(** X3 on the square and a mask of two entries. *)
Lemma match_short_mask_witness :
  (@match_ short_mask square_matcher square_results).2 = Undefined.
Proof.
  refine (@match_short_mask short_mask square_matcher square_results
            (map pt square_keypoints) (map pt square_keypoints) shift_transform
            [1; 1]%Z _ _ _ _).
  - vm_compute. lia.
  - vm_compute. reflexivity.
  - reflexivity.
  - vm_compute. lia.
Defined.

(** X4 on the square: the two matches returned are among the four nearest
    neighbours, in their order. *)
Lemma match_returns_row_heads_witness :
  [mkDMatch 0 0 0 (flt 1 0); mkDMatch 3 3 0 (flt 1 0)] `sublist_of` diagonal_matches.
Proof.
  refine (proj1 (@match_returns_row_heads two_inliers square_matcher square_results
                   shift_transform _ _)).
  vm_compute. reflexivity.
Defined.

(** X5 on the square: the shifted transform that is returned was fitted. *)
Lemma match_result_from_estimator_witness :
  4 <= length (filter_unique (knnMatch (matcher_ square_matcher)
                                (descriptors square_results) 2)).
Proof.
  refine (proj1 (@match_result_from_estimator two_inliers square_matcher square_results
                   shift_transform
                   [mkDMatch 0 0 0 (flt 1 0); mkDMatch 3 3 0 (flt 1 0)] _ _)).
  - vm_compute. reflexivity.
  - left. vm_compute. discriminate.
Defined.

(** X6 on a row whose nearest distance is NaN. *)
Lemma ratio_test_nan_witness :
  ratio_test [mkDMatch 0 0 0 S754_nan; boundary_second] = Some (mkDMatch 0 0 0 S754_nan).
Proof.
  refine (ratio_test_nan (mkDMatch 0 0 0 S754_nan) boundary_second [] _).
  left. reflexivity.
Defined.

(** X7 on an index that finds one neighbour per row. *)
Lemma match_few_neighbours_witness :
  @match_ all_inliers single_neighbour_matcher square_results
  = ([EvKnnMatch], Returned (Matx33f_eye, [])).
Proof.
  refine (@match_few_neighbours all_inliers single_neighbour_matcher square_results _).
  left. vm_compute. repeat constructor.
Defined.

(* ===================================================================== *)
(** * Further properties of the parallel matching *)
(* ===================================================================== *)

Section parallel_match_more.
Context `{Calib3d}.

(** X8: after [parallelMatch] the slot of every valid matcher holds the
    transform and the matches its own [match] call returned, whatever the
    caller's vectors held; the slot of a null matcher holds the identity
    transform and an empty match list where the caller's vectors were too
    short to have that slot, in particular when they were empty. *)
Theorem parallelMatch_new_slots (sched : list nat) (matchers : list (option ResultMatcher))
    (source : Results) (transforms : list Matx) (matches_array : list (list DMatch)) :
  schedule (length matchers) sched ->
  (forall i m, matchers !! i = Some (Some m) -> exists r, (match_ m source).2 = Returned r) ->
  exists T M,
    parallelMatch sched matchers source transforms matches_array = Returned (T, M) /\
    (forall i m, matchers !! i = Some (Some m) ->
       (match_ m source).2
       = Returned (default Matx33f_eye (T !! i), default [] (M !! i)) /\
       is_Some (T !! i) /\ is_Some (M !! i)) /\
    (forall i, matchers !! i = Some None ->
       (length transforms <= i -> T !! i = Some Matx33f_eye) /\
       (length matches_array <= i -> M !! i = Some [])).
Proof.
  intros Hs Hret.
  destruct (parallelMatch_slots sched matchers source transforms matches_array Hs Hret)
    as (T & M & Hrun & _ & _ & Hvalid & Hnull).
  exists T, M. split; [exact Hrun|]. split.
  - intros i m Hm. destruct (Hvalid i m Hm) as (t & ms & Hr & -> & ->).
    split; [exact Hr|]. split; eauto.
  - intros i Hi. destruct (Hnull i Hi) as [-> ->]. split; intros Hlen.
    + now rewrite lookup_ge_None_2.
    + now rewrite lookup_ge_None_2.
Qed.

(** X9: [parallelMatch] gives the same vectors for every order in which the
    tasks run, and they have one slot per matcher: elements the caller's
    vectors had beyond that number are dropped. *)
Theorem parallelMatch_any_order (sched sched' : list nat)
    (matchers : list (option ResultMatcher)) (source : Results)
    (transforms : list Matx) (matches_array : list (list DMatch)) :
  schedule (length matchers) sched ->
  schedule (length matchers) sched' ->
  (forall i m, matchers !! i = Some (Some m) -> exists r, (match_ m source).2 = Returned r) ->
  parallelMatch sched matchers source transforms matches_array
  = parallelMatch sched' matchers source transforms matches_array /\
  exists T M,
    parallelMatch sched matchers source transforms matches_array = Returned (T, M) /\
    length T = length matchers /\ length M = length matchers.
Proof.
  intros Hs Hs' Hret.
  destruct (parallelMatch_slots sched matchers source transforms matches_array Hs Hret)
    as (T & M & Hrun & HT & HM & Hvalid & Hnull).
  destruct (parallelMatch_slots sched' matchers source transforms matches_array Hs' Hret)
    as (T' & M' & Hrun' & HT' & HM' & Hvalid' & Hnull').
  split; [|eauto]. rewrite Hrun, Hrun'.
  assert (Hslot : forall i, T !! i = T' !! i /\ M !! i = M' !! i).
  { intros i. destruct (matchers !! i) as [[m|]|] eqn:Hm.
    - destruct (Hvalid i m Hm) as (t & ms & Hr & -> & ->).
      destruct (Hvalid' i m Hm) as (t' & ms' & Hr' & -> & ->).
      rewrite Hr in Hr'. injection Hr' as <- <-. split; reflexivity.
    - destruct (Hnull i Hm) as [-> ->]. destruct (Hnull' i Hm) as [-> ->].
      split; reflexivity.
    - apply lookup_ge_None in Hm. rewrite !lookup_ge_None_2 by lia. split; reflexivity. }
  f_equal. f_equal; apply list_eq; intros i; apply Hslot.
Qed.

End parallel_match_more.

(** X8 on a null and a valid matcher with empty output vectors. *)
Lemma parallelMatch_new_slots_witness :
  exists T M,
    @parallelMatch all_inliers [1; 0] null_and_square square_results [] []
    = Returned (T, M) /\
    T !! 0 = Some Matx33f_eye /\ M !! 0 = Some [].
Proof.
  destruct (@parallelMatch_new_slots all_inliers [1; 0] null_and_square square_results [] [])
    as (T & M & Hrun & _ & Hnull).
  - unfold schedule. simpl. apply perm_swap.
  - intros [|[|i]] m; simpl; intros [= <-]. eexists. vm_compute. reflexivity.
  - exists T, M. split; [exact Hrun|].
    destruct (Hnull 0 eq_refl) as [HT HM]. split; [apply HT|apply HM]; simpl; lia.
Defined.

(** X9 on a null and a valid matcher, with three-element vectors used
    before. *)
Lemma parallelMatch_any_order_witness :
  @parallelMatch all_inliers [0; 1] null_and_square square_results
    (shift_transform :: used_transforms) ([] :: used_matches)
  = @parallelMatch all_inliers [1; 0] null_and_square square_results
      (shift_transform :: used_transforms) ([] :: used_matches).
Proof.
  refine (proj1 (@parallelMatch_any_order all_inliers [0; 1] [1; 0] null_and_square
                   square_results (shift_transform :: used_transforms)
                   ([] :: used_matches) _ _ _)).
  - unfold schedule. simpl. reflexivity.
  - unfold schedule. simpl. apply perm_swap.
  - intros [|[|i]] m; simpl; intros [= <-]. eexists. vm_compute. reflexivity.
Defined.

(* ===================================================================== *)
(** * Further properties of the detector *)
(* ===================================================================== *)

Section plan_invariants.
Context `{Libm}.

Lemma phi_loop_inv (fuel : nat) : forall tilt phi params r,
  phi_loop fuel tilt phi params = Some r ->
  exists phis,
    r = (params.1 ++ replicate (length phis) tilt, params.2 ++ phis) /\
    Forall (fun p => dlt p (dbl 180 0) = true) phis /\
    (dlt phi (dbl 180 0) = true -> head phis = Some phi).
Proof.
  induction fuel as [|fuel IH]; intros tilt phi params r; [discriminate|]. cbn [phi_loop].
  destruct (dlt phi (dbl 180 0)) eqn:Hlt.
  - intros Hr. destruct (IH _ _ _ _ Hr) as (phis & -> & Hall & _). cbn [fst snd].
    exists (phi :: phis). cbn [length replicate]. rewrite <- !app_assoc. cbn [app].
    split; [reflexivity|]. split; [now constructor|reflexivity].
  - intros [= <-]. exists []. cbn [length replicate]. rewrite !app_nil_r.
    split; [now destruct params|]. split; [constructor|discriminate].
Qed.

Lemma tilt_loop_inv (fuel : nat) (levels : list Z) : forall params r,
  tilt_loop fuel levels params = Some r ->
  exists tilts phis,
    r = (params.1 ++ tilts, params.2 ++ phis) /\
    length tilts = length phis /\ length levels <= length phis /\
    Forall (fun p => dlt p (dbl 180 0) = true) phis /\
    Forall (fun t => exists i, i ∈ levels /\
                       t = pow (dbl 2 0) (dmul (dbl 1 (-1)) (double_of_int i))) tilts.
Proof.
  induction levels as [|i rest IH]; intros params r; cbn [tilt_loop].
  - intros [= <-]. exists [], []. rewrite !app_nil_r.
    split; [now destruct params|]. repeat split; constructor.
  - destruct (phi_loop fuel _ _ params) as [params'|] eqn:Hphi; [|discriminate].
    cbn [mbind option_bind]. intros Hr.
    destruct (phi_loop_inv _ _ _ _ _ Hphi) as (phis1 & -> & Hall1 & Hhead).
    destruct (IH _ _ Hr) as (tilts & phis & -> & Hlen & Hcount & Hall & Htilts).
    cbn [fst snd]. rewrite <- !app_assoc.
    exists (replicate (length phis1) (pow (dbl 2 0) (dmul (dbl 1 (-1)) (double_of_int i)))
            ++ tilts), (phis1 ++ phis).
    split; [reflexivity|].
    assert (Hne : 1 <= length phis1).
    { specialize (Hhead eq_refl). destruct phis1; [discriminate|simpl; lia]. }
    rewrite !length_app, length_replicate. cbn [length].
    split; [lia|]. split; [lia|]. split; [now apply Forall_app|].
    apply Forall_app. split.
    + apply Forall_replicate. exists i. split; [apply list_elem_of_here|reflexivity].
    + eapply Forall_impl; [exact Htilts|]. intros t (j & Hj & ->).
      exists j. split; [now apply list_elem_of_further|reflexivity].
Qed.

(** X10: whatever [std::pow] returns, when the parameter loops finish the
    two parameter vectors have the same length, so that [phi_params[i]]
    exists for every task; the first sample is the identity; every tilt
    level contributes at least the angle 0, so there are at least six
    samples; every angle is below 180; and every tilt is 1 or a value of
    [pow(2., 0.5 * i)] with [i] from 1 to 5. *)
Theorem generate_params_invariants (fuel : nat) (params : list double * list double) :
  generate_params fuel = Some params ->
  length params.1 = length params.2 /\
  head params.1 = Some (dbl 1 0) /\ head params.2 = Some (S754_zero false) /\
  6 <= length params.1 /\
  Forall (fun phi => dlt phi (dbl 180 0) = true) params.2 /\
  Forall (fun tilt => tilt = dbl 1 0 \/
            exists i, (1 <= i <= 5)%Z /\
              tilt = pow (dbl 2 0) (dmul (dbl 1 (-1)) (double_of_int i))) params.1.
Proof.
  unfold generate_params. cbn [app]. intros Hr.
  destruct (tilt_loop_inv _ _ _ _ Hr) as (tilts & phis & -> & Hlen & Hcount & Hall & Htilts).
  cbn [fst snd app length] in *. repeat split; try reflexivity; try lia.
  - constructor; [reflexivity|exact Hall].
  - constructor; [now left|].
    eapply Forall_impl; [exact Htilts|]. intros t (i & Hi & ->). right. exists i.
    split; [|reflexivity].
    repeat (apply elem_of_cons in Hi as [->|Hi]; [lia|]). now apply not_elem_of_nil in Hi.
Qed.

End plan_invariants.

(** X10 for the libm with the table of powers. *)
Lemma generate_params_invariants_witness :
  length (plan_of_the_spec.*1) = length (plan_of_the_spec.*2) /\
  6 <= length (plan_of_the_spec.*1).
Proof.
  destruct (@generate_params_invariants table_libm 16
              (plan_of_the_spec.*1, plan_of_the_spec.*2)) as (Hlen & _ & _ & Hsix & _).
  - vm_compute. reflexivity.
  - split; [exact Hlen|exact Hsix].
Defined.

Section detector_more.
Context `{Libm} `{ImgProc}.

(** X11: the map of a sample is declared as a [cv::Matx32f], a matrix of 3
    rows and 2 columns. With a library that asserts a 2x3 map in
    [cv::warpAffine] and [cv::invertAffineTransform], as OpenCV does,
    every sample task raises, whatever the tilt, the angle, the image and
    the backend, and so does [detectAndCompute] on every input. *)
Theorem detectAndCompute_shape_assertion (this : AffineInvariantFeature)
    (fuel : nat) (params : list double * list double) (sched : list nat)
    (image mask : Mat) (keypoints : list KeyPoint) (descriptors : Mat)
    (tilt phi : double) (flag : bool) :
  asserts_affine_shape ->
  (detectAndComputeImpl this image mask keypoints tilt phi flag).2 = Raised /\
  (generate_params fuel = Some params ->
   schedule (length params.1) sched ->
   detectAndCompute this fuel sched image mask keypoints descriptors flag = Some Raised).
Proof.
  intros Hassert. split; [now apply detectAndComputeImpl_raises|].
  intros Hp Hs.
  destruct (base_feature_ this) as [base_feature|] eqn:Hb;
    [|unfold detectAndCompute; now rewrite Hb].
  apply (detectAndCompute_no_descriptors _ base_feature _ params); try assumption.
  intros o Ho. apply list_elem_of_fmap in Ho as (sample & Ho & _).
  unfold sample_output in Ho.
  rewrite (detectAndComputeImpl_raises _ _ _ _ _ _ _ Hassert) in Ho. discriminate.
Qed.

Lemma find_first {A : Type} (f : A -> bool) (pre : list A) (x : A) (post : list A) :
  Forall (fun y => f y = false) pre -> f x = true ->
  find f (pre ++ x :: post) = Some x.
Proof.
  intros Hpre Hx. induction Hpre as [|y pre Hy _ IH]; cbn [app find].
  - now rewrite Hx.
  - now rewrite Hy.
Qed.

Lemma merge_format (keypoints_array : list (list KeyPoint)) (descriptors_array : list Mat)
    (keypoints : list KeyPoint) (descriptors : Mat) (kps : list KeyPoint) (D : Mat) :
  merge keypoints_array descriptors_array keypoints descriptors = Returned (kps, D) ->
  kps = concat keypoints_array /\
  match find (fun d => negb (Mat_empty d)) descriptors_array with
  | Some d => mat_rows D = length kps /\ mat_cols D = mat_cols d /\ mat_type D = mat_type d
  | None => D = descriptors
  end.
Proof.
  unfold merge. cbn [app].
  destruct (find _ descriptors_array) as [d|] eqn:Hfind.
  - destruct (copy_rows _ _ 0) as [D'| |] eqn:Hcopy; try discriminate.
    cbn [obind]. intros [= <- <-]. split; [reflexivity|].
    destruct (copy_rows_inv _ _ _ _ Hcopy) as (Ht & Hc & Hr & _).
    destruct (Mat_create_shape descriptors (length (concat keypoints_array)) (mat_cols d)
                (mat_type d)) as (Hr1 & Hc1 & Ht1).
    repeat split; congruence.
  - destruct (copy_rows _ _ 0) as [D'| |] eqn:Hcopy; try discriminate.
    cbn [obind]. intros [= <- <-]. split; [reflexivity|].
    destruct descriptors_array as [|d0 rest]; [cbn [copy_rows] in Hcopy; congruence|].
    apply find_nonempty_none, Forall_cons in Hfind as [Hd0 _].
    rewrite copy_rows_raised in Hcopy by now apply Exists_cons_hd. discriminate.
Qed.

End detector_more.

Section detector_format.
Context `{Libm} `{ImgProc}.

(** X12: whenever [detectAndCompute] returns and some sample has a
    non-empty descriptor matrix, the matrix returned has one row per
    returned keypoint, and the width and the type of the first sample, in
    the order of the plan, whose matrix is not empty; this does not depend
    on the backend keeping its row contract. *)
Theorem detectAndCompute_format (this : AffineInvariantFeature)
    (base_feature : Feature2D) (fuel : nat) (params : list double * list double)
    (sched : list nat) (image mask : Mat) (keypoints : list KeyPoint)
    (descriptors : Mat) (flag : bool) (kps : list KeyPoint) (D : Mat)
    (pre : list (list KeyPoint * Mat)) (o : list KeyPoint * Mat)
    (post : list (list KeyPoint * Mat)) :
  base_feature_ this = Some base_feature ->
  generate_params fuel = Some params ->
  schedule (length params.1) sched ->
  detectAndCompute this fuel sched image mask keypoints descriptors flag
  = Some (Returned (kps, D)) ->
  sample_outputs base_feature image mask flag (zip params.1 params.2)
  = Returned <$> (pre ++ o :: post) ->
  Forall (fun o' => Mat_empty o'.2 = true) pre ->
  Mat_empty o.2 = false ->
  mat_rows D = length kps /\ mat_cols D = mat_cols o.2 /\ mat_type D = mat_type o.2.
Proof.
  intros Hb Hp Hs Hrun Hout Hpre Ho.
  rewrite (detectAndCompute_gather _ _ _ _ sched _ _ _ _ _ Hb Hp Hs) in Hrun.
  rewrite Hout, gather_returned in Hrun. cbn [obind] in Hrun.
  injection Hrun as Hrun. apply merge_format in Hrun as [_ Hfmt].
  rewrite fmap_app, fmap_cons in Hfmt.
  rewrite (find_first _ (pre.*2) o.2 (post.*2)) in Hfmt; [exact Hfmt| |now rewrite Ho].
  apply Forall_fmap. eapply Forall_impl; [exact Hpre|].
  intros o' Ho'. cbn. now rewrite Ho'.
Qed.

End detector_format.

(** X11 on the 2x2 image and the backend that finds a corner, for a tilted
    and rotated sample and for the whole plan. *)
Lemma detectAndCompute_shape_assertion_witness :
  (@detectAndComputeImpl asserting_imgproc (feature_of corner_backend) tile_image Mat_new []
     (dbl 2 0) (dbl 36 0) false).2
  = Raised /\
  @detectAndCompute table_libm asserting_imgproc (feature_of corner_backend) 16
    (seq 0 43) tile_image Mat_new [] Mat_new false
  = Some Raised.
Proof.
  destruct (@detectAndCompute_shape_assertion table_libm asserting_imgproc
              (feature_of corner_backend) 16 (plan_of_the_spec.*1, plan_of_the_spec.*2)
              (seq 0 43) tile_image Mat_new [] Mat_new (dbl 2 0) (dbl 36 0) false)
    as [Htask Hcall].
  { split.
    - intros src a size interpolation border Hshape. cbn. now rewrite Hshape.
    - intros a Hshape. cbn. now rewrite Hshape. }
  split; [exact Htask|]. apply Hcall.
  - vm_compute. reflexivity.
  - change (seq 0 43 ≡ₚ seq 0 43). reflexivity.
Defined.

(** X12 on the 2x2 image and the corner backend: 43 rows of one byte. *)
Lemma detectAndCompute_format_witness :
  exists kps D,
    @detectAndCompute table_libm plain_imgproc (feature_of corner_backend) 16
      (seq 0 43) tile_image Mat_new [] earlier_descriptors false
    = Some (Returned (kps, D)) /\
    mat_rows D = length kps /\ mat_cols D = 1 /\ mat_type D = 0%Z.
Proof.
  eexists _, _. split; [vm_compute; reflexivity|].
  refine (@detectAndCompute_format table_libm plain_imgproc (feature_of corner_backend)
            corner_backend 16 (plan_of_the_spec.*1, plan_of_the_spec.*2)
            (seq 0 43) tile_image Mat_new [] earlier_descriptors false _ _
            [] ([keypoint_at 1 1], mkMat 0 1 [[7%Z]])
            (replicate 42 ([keypoint_at 1 1], mkMat 0 1 [[7%Z]])) _ _ _ _ _ _ _).
  - reflexivity.
  - vm_compute. reflexivity.
  - change (seq 0 43 ≡ₚ seq 0 43). reflexivity.
  - vm_compute. reflexivity.
  - vm_compute. reflexivity.
  - constructor.
  - reflexivity.
Defined.

(* ===================================================================== *)
(** * Properties of the constructor and of the feature parameters *)
(* ===================================================================== *)


Section constructor_facts.

Context `{Flann}.

(** X13: The constructor of [ResultMatcher] raises for a null reference and
    for a reference whose norm type is neither [NORM_L2] nor [NORM_HAMMING],
    whatever the matching library does.  When it returns, the reference is
    not null and is the one [getReference] gives, and the matcher is the
    index trained on the descriptors of the reference: four KD-trees for
    [NORM_L2], LSH with 6 tables, keys of 12 bits and probe level 1 for
    [NORM_HAMMING]. *)
Theorem ResultMatcher_new_checks (reference : option Results) :
  (reference = None -> ResultMatcher_new reference = Raised) /\
  (forall r, reference = Some r ->
     normType r <> NORM_L2 -> normType r <> NORM_HAMMING ->
     ResultMatcher_new reference = Raised) /\
  (forall rm, ResultMatcher_new reference = Returned rm ->
     reference = Some (getReference rm) /\
     exists params,
       FlannBasedMatcher_trained params (descriptors (getReference rm))
         = Returned (matcher_ rm) /\
       (normType (getReference rm) = NORM_L2 /\ params = KDTreeIndexParams 4 \/
        normType (getReference rm) = NORM_HAMMING /\ params = LshIndexParams 6 12 1)).
Proof.
  unfold ResultMatcher_new. split; [|split].
  - intros ->. reflexivity.
  - intros r -> Hl2 Hham.
    destruct (Z.eqb_spec (normType r) NORM_L2); [contradiction|].
    destruct (Z.eqb_spec (normType r) NORM_HAMMING); [contradiction|]. reflexivity.
  - intros rm. destruct reference as [r|]; [|discriminate].
    destruct (Z.eqb_spec (normType r) NORM_L2) as [Hl2|Hl2];
      [|destruct (Z.eqb_spec (normType r) NORM_HAMMING) as [Hham|Hham]; [|discriminate]];
      cbn [obind];
      (destruct (FlannBasedMatcher_trained _ _) as [m| |] eqn:Htrain; [|discriminate..]);
      intros [= <-]; cbn [getReference reference_ matcher_];
      (split; [reflexivity|]); eexists; (split; [exact Htrain|]); auto.
Qed.

End constructor_facts.

(** X13 on a null reference, on a reference of norm type 2 and on the
    square, whose norm type is [NORM_L2]. *)
Lemma ResultMatcher_new_checks_witness :
  ResultMatcher_new (H:=diagonal_flann) None = Raised /\
  ResultMatcher_new (H:=diagonal_flann) (Some (mkResults [] Mat_new 2)) = Raised /\
  exists params,
    FlannBasedMatcher_trained (Flann:=diagonal_flann) params (descriptors square_results)
      = Returned diagonal_matcher /\
    (normType square_results = NORM_L2 /\ params = KDTreeIndexParams 4 \/
     normType square_results = NORM_HAMMING /\ params = LshIndexParams 6 12 1).
Proof.
  split; [|split].
  - destruct (ResultMatcher_new_checks (H:=diagonal_flann) None) as (Hnull & _ & _).
    apply Hnull. reflexivity.
  - destruct (ResultMatcher_new_checks (H:=diagonal_flann) (Some (mkResults [] Mat_new 2)))
      as (_ & Hnorm & _).
    apply (Hnorm (mkResults [] Mat_new 2)); [reflexivity | discriminate | discriminate].
  - destruct (ResultMatcher_new_checks (H:=diagonal_flann) (Some square_results))
      as (_ & _ & Hnew).
    apply (Hnew square_matcher). reflexivity.
Defined.

Section parameter_facts.

Context `{Features2d}.

Lemma known_name_false (name : String.string) :
  name <> "AIFParameters"%string -> name <> "AKAZEParameters"%string ->
  name <> "BRISKParameters"%string -> name <> "SIFTParameters"%string ->
  name <> "SURFParameters"%string -> known_name name = false.
Proof.
  intros H1 H2 H3 H4 H5. unfold known_name, parameter_names. cbn [existsb].
  apply String.eqb_neq in H1, H2, H3, H4, H5.
  rewrite H1, H2, H3, H4, H5. reflexivity.
Qed.

Lemma createFeatureParameters_returned (name : String.string) (p : FeatureParameters) :
  createFeatureParameters name = Returned (Some p) ->
  getDefaultName p = name /\ known_name name = true.
Proof.
  unfold createFeatureParameters, AKAZEParameters_new, SURFParameters_new.
  cbn [getDefaultName].
  destruct (String.eqb_spec name "AIFParameters"); [intros [= <-]; subst; split; reflexivity|].
  destruct defaultAKAZE; [|discriminate]. cbn [obind].
  destruct (String.eqb_spec name "AKAZEParameters"); [intros [= <-]; subst; split; reflexivity|].
  destruct (String.eqb_spec name "BRISKParameters"); [intros [= <-]; subst; split; reflexivity|].
  destruct (String.eqb_spec name "SIFTParameters"); [intros [= <-]; subst; split; reflexivity|].
  destruct defaultSURF; [|discriminate]. cbn [obind].
  destruct (String.eqb_spec name "SURFParameters"); [intros [= <-]; subst; split; reflexivity|].
  discriminate.
Qed.

Lemma createFeatureParameters_null (name : String.string) :
  createFeatureParameters name = Returned None -> known_name name = false.
Proof.
  unfold createFeatureParameters, AKAZEParameters_new, SURFParameters_new.
  cbn [getDefaultName].
  destruct (String.eqb_spec name "AIFParameters"); [discriminate|].
  destruct defaultAKAZE; [|discriminate]. cbn [obind].
  destruct (String.eqb_spec name "AKAZEParameters"); [discriminate|].
  destruct (String.eqb_spec name "BRISKParameters"); [discriminate|].
  destruct (String.eqb_spec name "SIFTParameters"); [discriminate|].
  destruct defaultSURF; [|discriminate]. cbn [obind].
  destruct (String.eqb_spec name "SURFParameters"); [discriminate|].
  intros _. apply known_name_false; assumption.
Qed.

(** X14: When the default AKAZE and SURF objects can be had,
    [createFeatureParameters] returns for every name: the null pointer for a
    name that is none of the five names of the parameter sets, and otherwise
    a freshly constructed parameter set whose [getDefaultName] is the name
    asked for. *)
Theorem createFeatureParameters_by_name (a : AKAZEParameters) (s : SURFParameters)
    (type_name : String.string) :
  defaultAKAZE = Some a -> defaultSURF = Some s ->
  (known_name type_name = false /\ createFeatureParameters type_name = Returned None) \/
  (exists p, createFeatureParameters type_name = Returned (Some p) /\
     getDefaultName p = type_name /\
     p ∈ [AIF []; AKAZE a; BRISK BRISKParameters_new; SIFT SIFTParameters_new; SURF s]).
Proof.
  intros Ha Hs.
  unfold createFeatureParameters, AKAZEParameters_new, SURFParameters_new.
  rewrite Ha, Hs. cbn [getDefaultName obind].
  destruct (String.eqb_spec type_name "AIFParameters");
    [right; eexists; repeat split; [cbn [getDefaultName]; congruence | apply list_elem_of_In; simpl; tauto]|].
  destruct (String.eqb_spec type_name "AKAZEParameters");
    [right; eexists; repeat split; [cbn [getDefaultName]; congruence | apply list_elem_of_In; simpl; tauto]|].
  destruct (String.eqb_spec type_name "BRISKParameters");
    [right; eexists; repeat split; [cbn [getDefaultName]; congruence | apply list_elem_of_In; simpl; tauto]|].
  destruct (String.eqb_spec type_name "SIFTParameters");
    [right; eexists; repeat split; [cbn [getDefaultName]; congruence | apply list_elem_of_In; simpl; tauto]|].
  destruct (String.eqb_spec type_name "SURFParameters");
    [right; eexists; repeat split; [cbn [getDefaultName]; congruence | apply list_elem_of_In; simpl; tauto]|].
  left. split; [apply known_name_false; assumption | reflexivity].
Qed.

(** X15: [createFeatureParameters] constructs each candidate before it
    compares the names: "AIFParameters" is served whatever the library has,
    but without a default AKAZE object every other name raises, also
    "BRISKParameters" and "SIFTParameters", and without a default SURF object
    a name that is none of the five raises instead of giving the null
    pointer. *)
Theorem createFeatureParameters_constructs_first (type_name : String.string) :
  (type_name = "AIFParameters"%string ->
     createFeatureParameters type_name = Returned (Some (AIF []))) /\
  (defaultAKAZE = None -> type_name <> "AIFParameters"%string ->
     createFeatureParameters type_name = Raised) /\
  (defaultSURF = None -> known_name type_name = false ->
     createFeatureParameters type_name = Raised).
Proof.
  unfold createFeatureParameters, AKAZEParameters_new, SURFParameters_new.
  cbn [getDefaultName]. split; [|split].
  - intros ->. reflexivity.
  - intros -> Hname. apply String.eqb_neq in Hname. rewrite Hname. reflexivity.
  - intros -> Hname. unfold known_name, parameter_names in Hname. cbn [existsb] in Hname.
    repeat (apply orb_false_elim in Hname; destruct Hname as [?H Hname]).
    rewrite H0. destruct defaultAKAZE; [|reflexivity]. cbn [obind].
    rewrite H1, H2, H3. reflexivity.
Qed.

End parameter_facts.

(** X14 on a name that is not known and on the last of the five. *)
Lemma createFeatureParameters_by_name_witness :
  createFeatureParameters (H:=full_features2d) "ORBParameters"%string = Returned None /\
  exists p, createFeatureParameters (H:=full_features2d) "SURFParameters"%string = Returned (Some p) /\
    getDefaultName p = "SURFParameters"%string.
Proof.
  split.
  - destruct (createFeatureParameters_by_name (H:=full_features2d) sample_akaze sample_surf
                "ORBParameters"%string eq_refl eq_refl) as [[_ Hnull]|(p & _ & Hname & _)].
    + exact Hnull.
    + exfalso. destruct p; discriminate Hname.
  - destruct (createFeatureParameters_by_name (H:=full_features2d) sample_akaze sample_surf
                "SURFParameters"%string eq_refl eq_refl) as [[Hknown _]|(p & Hp & Hname & _)].
    + discriminate Hknown.
    + exists p. split; assumption.
Defined.

(** X15 on a library without AKAZE and on one without SURF. *)
Lemma createFeatureParameters_constructs_first_witness :
  createFeatureParameters (H:=no_akaze) "AIFParameters"%string = Returned (Some (AIF [])) /\
  createFeatureParameters (H:=no_akaze) "BRISKParameters"%string = Raised /\
  createFeatureParameters (H:=no_surf) "ORBParameters"%string = Raised.
Proof.
  split; [|split].
  - destruct (createFeatureParameters_constructs_first (H:=no_akaze) "AIFParameters"%string)
      as (Haif & _ & _).
    apply Haif. reflexivity.
  - destruct (createFeatureParameters_constructs_first (H:=no_akaze) "BRISKParameters"%string)
      as (_ & Hakaze & _).
    apply Hakaze; [reflexivity | discriminate].
  - destruct (createFeatureParameters_constructs_first (H:=no_surf) "ORBParameters"%string)
      as (_ & _ & Hsurf).
    apply Hsurf; reflexivity.
Defined.

Ltac read_leaf Hreader :=
  repeat match goal with
         | |- context [obind (node_int ?n ?k) _] =>
             destruct (Hreader n k) as ([? ->] & _); cbn [obind]
         | |- context [obind (node_float ?n ?k) _] =>
             destruct (Hreader n k) as (_ & [? ->] & _); cbn [obind]
         | |- context [obind (node_double ?n ?k) _] =>
             destruct (Hreader n k) as (_ & _ & [? ->] & _); cbn [obind]
         | |- context [obind (node_bool ?n ?k) _] =>
             destruct (Hreader n k) as (_ & _ & _ & [? ->]); cbn [obind]
         end;
  eexists; reflexivity.

Section read_facts.

Context `{Features2d} `{FileNodeReader}.

Lemma FileNode_nested_ind (P : FileNode -> Prop) :
  (forall name children text, Forall P children -> P (mkFileNode name children text)) ->
  forall fn, P fn.
Proof.
  intros Hstep. fix IH 1. intros [name children text]. apply Hstep.
  induction children as [|child children IHchildren]; constructor;
    [apply IH | exact IHchildren].
Qed.

Lemma read_entries_returned
    (read : FeatureParameters -> FileNode -> outcome FeatureParameters)
    (nodes : list FileNode) :
  forall entries r,
    read_entries read nodes entries = Returned r ->
    exists ps, r = AIF (entries ++ (Some <$> ps)) /\
      Forall2 (fun p node => exists name created,
                 node_name node = Some name /\
                 createFeatureParameters name = Returned (Some created) /\
                 read created node = Returned p)
              ps (known_nodes nodes).
Proof.
  induction nodes as [|node rest IH]; intros entries r; cbn [read_entries known_nodes List.filter].
  - intros [= <-]. exists []. rewrite app_nil_r. split; [reflexivity | constructor].
  - fold (read_entries read rest). fold (known_nodes rest).
    destruct (node_name node) as [name|] eqn:Hname; [|apply IH].
    destruct (createFeatureParameters name) as [[created|]| |] eqn:Hcreate;
      cbn [obind]; [| |discriminate..].
    + destruct (createFeatureParameters_returned _ _ Hcreate) as [_ ->].
      destruct (read created node) as [p| |] eqn:Hread; cbn [obind]; [|discriminate..].
      intros Hrest. destruct (IH _ _ Hrest) as (ps & -> & Hps).
      exists (p :: ps). rewrite <- app_assoc. split; [reflexivity|].
      constructor; [|exact Hps]. exists name, created. auto.
    + rewrite (createFeatureParameters_null _ Hcreate). apply IH.
Qed.

Lemma FeatureParameters_read_name (this : FeatureParameters) (fn : FileNode)
    (r : FeatureParameters) :
  FeatureParameters_read this fn = Returned r -> getDefaultName r = getDefaultName this.
Proof.
  destruct this, fn; cbn [FeatureParameters_read].
  - intros Hr. apply read_entries_returned in Hr as (ps & -> & _). reflexivity.
  - repeat match goal with
           | |- context [obind ?o _] => destruct o; cbn [obind]; try discriminate
           end; intros [= <-]; reflexivity.
  - repeat match goal with
           | |- context [obind ?o _] => destruct o; cbn [obind]; try discriminate
           end; intros [= <-]; reflexivity.
  - repeat match goal with
           | |- context [obind ?o _] => destruct o; cbn [obind]; try discriminate
           end; intros [= <-]; reflexivity.
  - repeat match goal with
           | |- context [obind ?o _] => destruct o; cbn [obind]; try discriminate
           end; intros [= <-]; reflexivity.
Qed.

(** X16: Whenever [AIFParameters::read] returns, the entries the object
    held before are gone, no entry of the result is null, and the entries
    are, in the order of the file, one per node whose name
    [createFeatureParameters] knows: the parameters created for that name
    after their own [read] of the node, and named as the node.  Nodes
    without a name or with another name leave no entry. *)
Theorem AIFParameters_read_entries (old : list (option FeatureParameters))
    (fn : FileNode) (r : FeatureParameters) :
  FeatureParameters_read (AIF old) fn = Returned r ->
  exists ps, r = AIF (Some <$> ps) /\
    Forall2 read_of_node ps (known_nodes (node_children fn)).
Proof.
  destruct fn as [name children text]. cbn [FeatureParameters_read node_children].
  intros Hr. apply read_entries_returned in Hr as (ps & -> & Hps).
  exists ps. split; [reflexivity|].
  eapply Forall2_impl; [exact Hps|]. cbn beta.
  intros p node (n & created & Hname & Hcreate & Hread).
  exists n, created. repeat split; try assumption.
  rewrite (FeatureParameters_read_name _ _ _ Hread).
  apply (createFeatureParameters_returned _ _ Hcreate).
Qed.

Lemma createFeatureParameters_returns (a : AKAZEParameters) (s : SURFParameters)
    (name : String.string) :
  defaultAKAZE = Some a -> defaultSURF = Some s ->
  returns (createFeatureParameters name).
Proof.
  intros Ha Hs.
  unfold createFeatureParameters, AKAZEParameters_new, SURFParameters_new.
  rewrite Ha, Hs. cbn [getDefaultName obind].
  repeat match goal with
         | |- context [String.eqb ?x ?y] => destruct (String.eqb x y)
         end; eexists; reflexivity.
Qed.

Lemma read_entries_returns (a : AKAZEParameters) (s : SURFParameters)
    (read : FeatureParameters -> FileNode -> outcome FeatureParameters)
    (nodes : list FileNode) :
  defaultAKAZE = Some a -> defaultSURF = Some s ->
  Forall (fun node => forall this, returns (read this node)) nodes ->
  forall entries, returns (read_entries read nodes entries).
Proof.
  intros Ha Hs. induction 1 as [|node rest Hnode _ IH]; intros entries; cbn [read_entries].
  - eexists; reflexivity.
  - fold (read_entries read rest).
    destruct (node_name node) as [name|]; [|apply IH].
    destruct (createFeatureParameters_returns a s name Ha Hs) as [[created|] ->];
      cbn [obind]; [|apply IH].
    destruct (Hnode created) as [p ->]. cbn [obind]. apply IH.
Qed.

Lemma FeatureParameters_read_returns (a : AKAZEParameters) (s : SURFParameters) :
  defaultAKAZE = Some a -> defaultSURF = Some s -> reader_returns ->
  forall fn this, returns (FeatureParameters_read this fn).
Proof.
  intros Ha Hs Hreader. induction fn as [name children text IH] using FileNode_nested_ind.
  intros this. destruct this; cbn [FeatureParameters_read].
  - apply (read_entries_returns a s); assumption.
  - read_leaf Hreader.
  - read_leaf Hreader.
  - read_leaf Hreader.
  - read_leaf Hreader.
Qed.

(** X17: When the default AKAZE and SURF objects can be had and no look-up
    in the file raises, [AIFParameters::read] returns for every file, to any
    depth of nested "AIFParameters" groups, and the names of its entries are
    the known names of the nodes of the file, in their order. *)
Theorem AIFParameters_read_returns (a : AKAZEParameters) (s : SURFParameters)
    (old : list (option FeatureParameters)) (fn : FileNode) :
  defaultAKAZE = Some a -> defaultSURF = Some s -> reader_returns ->
  exists ps, FeatureParameters_read (AIF old) fn = Returned (AIF (Some <$> ps)) /\
    getDefaultName <$> ps = omap node_name (known_nodes (node_children fn)).
Proof.
  intros Ha Hs Hreader.
  destruct (FeatureParameters_read_returns a s Ha Hs Hreader fn (AIF old)) as [r Hr].
  destruct fn as [name children text]. cbn [FeatureParameters_read node_children] in *.
  apply read_entries_returned in Hr as Hshape. destruct Hshape as (ps & -> & Hps).
  exists ps. split; [exact Hr|].
  clear Hr. induction Hps as [|p node ps nodes (n & created & Hname & Hcreate & Hread) _ IH];
    [reflexivity|].
  cbn [fmap list_fmap omap list_omap]. rewrite Hname. cbn. f_equal; [|exact IH].
  rewrite (FeatureParameters_read_name _ _ _ Hread).
  apply (createFeatureParameters_returned _ _ Hcreate).
Qed.

End read_facts.

(** X16 on the file with four nodes and an object that held a null entry. *)
Lemma AIFParameters_read_entries_witness :
  exists r ps,
    FeatureParameters_read (H:=full_features2d) (H0:=constant_reader) (AIF [None]) sample_file
      = Returned r /\
    r = AIF (Some <$> ps) /\
    Forall2 (read_of_node (H:=full_features2d) (H0:=constant_reader)) ps
      (known_nodes (node_children sample_file)).
Proof.
  eexists. 
  destruct (AIFParameters_read_entries (H:=full_features2d) (H0:=constant_reader)
              [None] sample_file _ eq_refl) as (ps & Hshape & Hps).
  exists ps. split; [reflexivity|]. split; assumption.
Defined.

(** X17 on the same file: the SIFT group and the nested group are read. *)
Lemma AIFParameters_read_returns_witness :
  exists ps,
    FeatureParameters_read (H:=full_features2d) (H0:=constant_reader) (AIF [None]) sample_file
      = Returned (AIF (Some <$> ps)) /\
    getDefaultName <$> ps = ["SIFTParameters"; "AIFParameters"]%string.
Proof.
  apply (AIFParameters_read_returns (H:=full_features2d) (H0:=constant_reader)
           sample_akaze sample_surf [None] sample_file eq_refl eq_refl).
  intros fn key. repeat split; eexists; reflexivity.
Defined.

Section write_facts.

Lemma FeatureParameters_nested_ind (P : FeatureParameters -> Prop) :
  (forall entries, Forall (fun entry => forall p, entry = Some p -> P p) entries ->
     P (AIF entries)) ->
  (forall p, P (AKAZE p)) -> (forall p, P (BRISK p)) ->
  (forall p, P (SIFT p)) -> (forall p, P (SURF p)) ->
  forall p, P p.
Proof.
  intros Haif Hakaze Hbrisk Hsift Hsurf. fix IH 1. intros [entries|p|p|p|p];
    [|apply Hakaze|apply Hbrisk|apply Hsift|apply Hsurf].
  apply Haif. induction entries as [|[q|] entries IHentries]; constructor;
    try exact IHentries.
  - intros p [= <-]. apply IH.
  - discriminate.
Qed.

Lemma nesting_app (tokens more : list Token) :
  forall depth, nesting (tokens ++ more) depth = nesting tokens depth ≫= nesting more.
Proof.
  induction tokens as [|token tokens IH]; intros depth; [reflexivity|].
  cbn [app nesting]. destruct token as [s| | | |]; try apply IH.
  destruct (String.eqb s "{"); [apply IH|].
  destruct (String.eqb s "}"); [|apply IH].
  destruct depth; [reflexivity | apply IH].
Qed.

Lemma getDefaultName_no_brace (p : FeatureParameters) :
  String.eqb (getDefaultName p) "{" = false /\ String.eqb (getDefaultName p) "}" = false.
Proof. destruct p; split; reflexivity. Qed.

(** X18: What [write] hands to the file storage opens and closes its
    groups in pairs, to any depth of nesting and from any depth it starts at;
    an [AIFParameters] writes, for each entry that is not null and in their
    order, the name of the entry, an opening brace, what the entry writes and
    a closing brace, and nothing for a null entry. *)
Theorem FeatureParameters_write_groups (this : FeatureParameters)
    (entries : list (option FeatureParameters)) (depth : nat) :
  nesting (FeatureParameters_write this) depth = Some depth /\
  FeatureParameters_write (AIF entries)
    = concat ((fun p => [TString (getDefaultName p); TString "{"%string]
                        ++ FeatureParameters_write p ++ [TString "}"%string])
              <$> omap id entries).
Proof.
  split.
  - revert depth.
    induction this as [children IH| | | |] using FeatureParameters_nested_ind;
      try (intros depth; reflexivity).
    cbn [FeatureParameters_write].
    induction IH as [|[p|] children Hp _ IHchildren]; intros depth; cbn [flat_map];
      [reflexivity| |apply IHchildren].
    rewrite nesting_app. cbn [app nesting].
    destruct (getDefaultName_no_brace p) as [-> ->].
    change (String.eqb "{" "{") with true. cbn iota.
    rewrite nesting_app, (Hp p eq_refl (S depth)). cbn. apply IHchildren.
  - cbn [FeatureParameters_write].
    induction entries as [|[p|] entries IH];
      cbn [flat_map omap list_omap fmap list_fmap concat id];
      [reflexivity| |exact IH].
    f_equal. exact IH.
Qed.

End write_facts.
